(** * eos::chain transactions (libraries/chain/include/eos/chain/transaction.hpp)

    A shallow embedding of the transaction object model: the transaction
    variants, their constructors, the message-container helpers, the
    reflection declarations that fix the canonical binary encoding, and the
    digest, identity and signing operations.

    What transaction.hpp only includes or declares (eos/chain/types.hpp,
    eos/chain/message.hpp, the fc reflection and raw-packing library, and the
    bodies in transaction.cpp) is either a field of the class [Externals]
    below or a definition marked [Modelled from the spec]. *)

From stdpp Require Import base list strings numbers.
From Stdlib.Strings Require Import Byte.
From Stdlib Require Import Lia.

Local Open Scope Z_scope.

(** ** Byte strings and fc::raw packing

    The packing of the fc library (fc/io/raw.hpp) is what the reflection
    declarations of transaction.hpp are read by. It is not part of
    transaction.hpp; the overloads used by the transaction types are written
    out in this part. *)

Definition bytes := list byte.

Definition byte_of_Z (z : Z) : byte :=
  default "000"%byte (Byte.of_N (Z.to_N (z `mod` 256))).

Definition Z_of_byte (b : byte) : Z := Z.of_N (Byte.to_N b).

(** fc::raw::pack / fc::raw::unpack, one overload per type. [unpack] reads a
    value from the front of the stream and returns the rest of the stream. *)
Class Raw (A : Type) := {
  pack : A -> bytes;
  unpack : bytes -> option (A * bytes)
}.

#[global] Hint Mode Raw ! : typeclass_instances.

(** A lawful overload reads back what it wrote, for the values of the type
    ([raw_valid]: a field in the range of its C++ type). *)
Class RawOk (A : Type) `{Raw A} := {
  raw_valid : A -> Prop;
  unpack_pack : forall (a : A) (rest : bytes),
    raw_valid a -> unpack (pack a ++ rest) = Some (a, rest)
}.

(** Integral types are written as their [w] bytes in memory, little end
    first. *)
Fixpoint pack_le (w : nat) (z : Z) : bytes :=
  match w with
  | O => []
  | S w' => byte_of_Z z :: pack_le w' (z / 256)
  end.

Fixpoint unpack_le (w : nat) (bs : bytes) : option (Z * bytes) :=
  match w with
  | O => Some (0, bs)
  | S w' =>
      match bs with
      | [] => None
      | b :: bs' =>
          match unpack_le w' bs' with
          | Some (z, rest) => Some (Z_of_byte b + 256 * z, rest)
          | None => None
          end
      end
  end.

(** uint16_t and uint32_t fields are [Z] values. Their packing overloads
    are named where a field is reflected: both types are [Z] here, and the
    overload could not be told from the type. *)
Definition UInt16 := Z.
Definition UInt32 := Z.

Definition UInt16_raw : Raw UInt16 :=
  {| pack := pack_le 2; unpack := unpack_le 2 |}.
Definition UInt32_raw : Raw UInt32 :=
  {| pack := pack_le 4; unpack := unpack_le 4 |}.

(** fc::unsigned_int: seven bits per byte, low group first, the high bit of a
    byte set when more follow. The value is a uint32_t, so five bytes are
    enough. *)
Fixpoint pack_unsigned_int_aux (fuel : nat) (v : Z) : bytes :=
  match fuel with
  | O => []
  | S fuel' =>
      if v / 128 =? 0 then [byte_of_Z (v `mod` 128)]
      else byte_of_Z (v `mod` 128 + 128) :: pack_unsigned_int_aux fuel' (v / 128)
  end.

Definition pack_unsigned_int (v : Z) : bytes :=
  pack_unsigned_int_aux 5 (v `mod` 2 ^ 32).

Fixpoint unpack_unsigned_int (bs : bytes) : option (Z * bytes) :=
  match bs with
  | [] => None
  | b :: bs' =>
      if Z_of_byte b <? 128 then Some (Z_of_byte b, bs')
      else
        match unpack_unsigned_int bs' with
        | Some (v, rest) => Some (Z_of_byte b - 128 + 128 * v, rest)
        | None => None
        end
  end.

(** std::vector<A>: the element count as an unsigned_int, then the elements
    in order. *)
Section Vector.
Context {A : Type} `{Raw A}.

Fixpoint pack_elements (l : list A) : bytes :=
  match l with
  | [] => []
  | x :: l' => pack x ++ pack_elements l'
  end.

Fixpoint unpack_elements (n : nat) (bs : bytes) : option (list A * bytes) :=
  match n with
  | O => Some ([], bs)
  | S n' =>
      match unpack bs with
      | Some (x, bs') =>
          match unpack_elements n' bs' with
          | Some (l, rest) => Some (x :: l, rest)
          | None => None
          end
      | None => None
      end
  end.

Definition pack_vector (l : list A) : bytes :=
  pack_unsigned_int (Z.of_nat (length l)) ++ pack_elements l.

Definition unpack_vector (bs : bytes) : option (list A * bytes) :=
  match unpack_unsigned_int bs with
  | Some (n, bs') => unpack_elements (Z.to_nat n) bs'
  | None => None
  end.

#[global] Instance vector_raw : Raw (list A) :=
  {| pack := pack_vector; unpack := unpack_vector |}.
End Vector.

(** The vectors that read back: the elements do, and the size is a
    uint32_t. *)
Definition vector_valid {A : Type} `{RawOk A} (l : list A) : Prop :=
  Forall raw_valid l /\ Z.of_nat (length l) < 2 ^ 32.

(** ** Reflection (FC_REFLECT, FC_REFLECT_DERIVED)

    A reflected member is visited by name; the packing visitor writes the
    member of a value, the unpacking visitor reads it into a value that
    already exists. *)
Record member (T : Type) := Member {
  member_name : string;
  member_pack : T -> bytes;
  member_unpack : T -> bytes -> option (T * bytes)
}.
Arguments Member {T} _ _ _.
Arguments member_name {T} _.
Arguments member_pack {T} _ _.
Arguments member_unpack {T} _ _ _.

Definition reflector (T : Type) := list (member T).

(** A data member [name] of type [F], given by its getter and setter. *)
Definition field {T F : Type} `{Raw F} (name : string)
    (get : T -> F) (set : F -> T -> T) : member T :=
  Member name
    (fun v => pack (get v))
    (fun v bs =>
       match unpack bs with
       | Some (x, rest) => Some (set x v, rest)
       | None => None
       end).

(** The members of a base class seen as members of the derived class. *)
Definition inherit {B T : Type} (get : T -> B) (set : B -> T -> T)
    (r : reflector B) : reflector T :=
  map (fun m =>
         Member (member_name m)
           (fun v => member_pack m (get v))
           (fun v bs =>
              match member_unpack m (get v) bs with
              | Some (b, rest) => Some (set b v, rest)
              | None => None
              end)) r.

(** Modelled from the spec: the macro FC_REFLECT_DERIVED of
    fc/reflect/reflect.hpp. Every structure serializes fields in a fixed
    declared order; for a type built by extension, base-class fields
    serialize first, followed by the extending type's own new fields in
    declaration order. FC_REFLECT_DERIVED(T, INHERITS, MEMBERS) names the
    bases in INHERITS: the members of every listed base are visited, then
    MEMBERS. *)
Definition FC_REFLECT_DERIVED {T : Type} (inherits : list (reflector T))
    (members : list (member T)) : reflector T :=
  concat inherits ++ members.

(** Modelled from the spec: the macro FC_REFLECT of fc/reflect/reflect.hpp.
    FC_REFLECT(T, MEMBERS) takes the type and its members and no base: it is
    FC_REFLECT_DERIVED(T, BOOST_PP_SEQ_NIL, MEMBERS), and MEMBERS is all that
    is visited. *)
Definition FC_REFLECT {T : Type} (members : list (member T)) : reflector T :=
  FC_REFLECT_DERIVED [] members.

Definition reflected_names {T : Type} (r : reflector T) : list string :=
  map member_name r.

Definition pack_reflected {T : Type} (r : reflector T) (v : T) : bytes :=
  concat (map (fun m => member_pack m v) r).

Fixpoint unpack_reflected {T : Type} (r : reflector T) (v : T) (bs : bytes)
    : option (T * bytes) :=
  match r with
  | [] => Some (v, bs)
  | m :: r' =>
      match member_unpack m v bs with
      | Some (v', bs') => unpack_reflected r' v' bs'
      | None => None
      end
  end.

(** fc::raw::unpack<T>(bytes) starts from a default-constructed T. *)
Definition raw_of_reflector {T : Type} `{Inhabited T} (r : reflector T) : Raw T :=
  {| pack := pack_reflected r;
     unpack := unpack_reflected r inhabitant |}.

(** ** What transaction.hpp takes from elsewhere *)

(** Modelled from the spec: a message (types::Message of
    eos/chain/types.hpp, Message of eos/chain/message.hpp). A message is of
    a logical type and carries a payload, a value serialized into the
    canonical message encoding; [Message_rest_of] is whatever else a message
    holds. *)
Record message_of (FuncName Rest : Type) := Build_Message {
  Message_rest_of : Rest;
  Message_type : FuncName;
  Message_data : bytes
}.
Arguments Build_Message {FuncName Rest} _ _ _.
Arguments Message_rest_of {FuncName Rest} _.
Arguments Message_type {FuncName Rest} _.
Arguments Message_data {FuncName Rest} _.

(** The other types of eos/chain/types.hpp and eos/chain/message.hpp with
    their packing overloads, and the cryptographic provider (the encoder of
    digest_type, the combination of a digest with a chain identifier,
    private_key_type::sign_compact). *)
Class Externals := {
  FuncName : Type;
  Message_rest : Type;
  AccountName : Type;
  Time : Type;
  Signature : Type;
  generated_transaction_id_type : Type;
  chain_id_type : Type;
  digest_type : Type;
  transaction_id_type : Type;
  private_key_type : Type;
  Message_raw :: Raw (message_of FuncName Message_rest);
  AccountName_raw :: Raw AccountName;
  Time_raw :: Raw Time;
  Signature_raw :: Raw Signature;
  generated_transaction_id_raw :: Raw generated_transaction_id_type;
  AccountName_inhabited :: Inhabited AccountName;
  Time_inhabited :: Inhabited Time;
  generated_transaction_id_inhabited :: Inhabited generated_transaction_id_type;
  (** digest_type::encoder: the hash of the bytes written to it *)
  digest_of_bytes : bytes -> digest_type;
  (** how a digest is combined with a chain identifier *)
  digest_with_chain : chain_id_type -> digest_type -> digest_type;
  transaction_id_of_digest : digest_type -> transaction_id_type;
  sign_compact : private_key_type -> digest_type -> Signature
}.

Definition Message `{Externals} : Type := message_of FuncName Message_rest.

(** Modelled from the spec: Message::set<T>(type, value) of
    eos/chain/message.hpp. The message it is called on becomes a message of
    the given logical type carrying [value], serialized; what else the
    message holds is not touched. *)
Definition Message_set `{Externals} {T : Type} `{Raw T} (type : FuncName)
    (value : T) (m : Message) : Message :=
  {| Message_rest_of := Message_rest_of m;
     Message_type := type;
     Message_data := pack value |}.

(** Modelled from the spec: the error kinds it lists; transaction.hpp
    declares none and throws none. *)
Inductive error_kind :=
  | StaleOrUnknownReference
  | Expired
  | InvalidSignature
  | MessageDecodeMismatch
  | IndexOutOfRange
  | ExecutionFailure.

(** What a call can do: return, throw one of the error kinds, or run into
    behaviour C++ leaves undefined. *)
Inductive outcome (A : Type) :=
  | Returns (a : A)
  | Throws (e : error_kind)
  | Undefined.
Arguments Returns {A} _.
Arguments Throws {A} _.
Arguments Undefined {A}.

Section Transactions.
Context `{Externals}.

(** ** The transaction variants *)

(** Modelled from the spec: types::Transaction, declared in
    eos/chain/types.hpp. The core transaction fields are an ordered
    sequence of messages, a 16-bit reference-block number, a 32-bit
    reference-block prefix and an expiration timestamp. *)
Record Transaction := {
  messages : list Message;
  ref_block_num : UInt16;
  ref_block_prefix : UInt32;
  expiration : Time
}.

Definition set_messages (x : list Message) (t : Transaction) : Transaction :=
  {| messages := x; ref_block_num := ref_block_num t;
     ref_block_prefix := ref_block_prefix t; expiration := expiration t |}.
Definition set_ref_block_num (x : UInt16) (t : Transaction) : Transaction :=
  {| messages := messages t; ref_block_num := x;
     ref_block_prefix := ref_block_prefix t; expiration := expiration t |}.
Definition set_ref_block_prefix (x : UInt32) (t : Transaction) : Transaction :=
  {| messages := messages t; ref_block_num := ref_block_num t;
     ref_block_prefix := x; expiration := expiration t |}.
Definition set_expiration (x : Time) (t : Transaction) : Transaction :=
  {| messages := messages t; ref_block_num := ref_block_num t;
     ref_block_prefix := ref_block_prefix t; expiration := x |}.

(** A default-constructed Transaction: no messages; the integer fields are
    read as 0. *)
#[global] Instance Transaction_inhabited : Inhabited Transaction :=
  populate {| messages := []; ref_block_num := 0; ref_block_prefix := 0;
              expiration := inhabitant |}.

(** Modelled from the spec: types::SignedTransaction, declared in
    eos/chain/types.hpp: the core transaction and an ordered sequence of
    signatures. *)
Record types_SignedTransaction := {
  types_SignedTransaction_base :> Transaction;
  signatures : list Signature
}.

Definition set_types_SignedTransaction_base (b : Transaction)
    (t : types_SignedTransaction) : types_SignedTransaction :=
  {| types_SignedTransaction_base := b; signatures := signatures t |}.
Definition set_signatures (x : list Signature)
    (t : types_SignedTransaction) : types_SignedTransaction :=
  {| types_SignedTransaction_base := t; signatures := x |}.

#[global] Instance types_SignedTransaction_inhabited
    : Inhabited types_SignedTransaction :=
  populate {| types_SignedTransaction_base := inhabitant; signatures := [] |}.

(** struct GeneratedTransaction : public types::Transaction *)
Record GeneratedTransaction := {
  GeneratedTransaction_base :> Transaction;
  GeneratedTransaction_id : generated_transaction_id_type
}.

(** GeneratedTransaction(_id, trx) *)
Definition GeneratedTransaction_new (_id : generated_transaction_id_type)
    (trx : Transaction) : GeneratedTransaction :=
  {| GeneratedTransaction_base := trx; GeneratedTransaction_id := _id |}.

Definition set_GeneratedTransaction_base (b : Transaction)
    (g : GeneratedTransaction) : GeneratedTransaction :=
  {| GeneratedTransaction_base := b;
     GeneratedTransaction_id := GeneratedTransaction_id g |}.
Definition set_GeneratedTransaction_id (x : generated_transaction_id_type)
    (g : GeneratedTransaction) : GeneratedTransaction :=
  {| GeneratedTransaction_base := g; GeneratedTransaction_id := x |}.

#[global] Instance GeneratedTransaction_inhabited : Inhabited GeneratedTransaction :=
  populate {| GeneratedTransaction_base := inhabitant;
              GeneratedTransaction_id := inhabitant |}.

(** struct SignedTransaction : public types::SignedTransaction, with the
    constructors of its base and no member of its own. *)
Record SignedTransaction := {
  SignedTransaction_super :> types_SignedTransaction
}.

(** The inherited constructor from the core fields: no signature yet. *)
Definition SignedTransaction_new (msgs : list Message) (rbn : UInt16)
    (rbp : UInt32) (exp : Time) : SignedTransaction :=
  {| SignedTransaction_super :=
       {| types_SignedTransaction_base :=
            {| messages := msgs; ref_block_num := rbn;
               ref_block_prefix := rbp; expiration := exp |};
          signatures := [] |} |}.

#[global] Instance SignedTransaction_inhabited : Inhabited SignedTransaction :=
  populate {| SignedTransaction_super := inhabitant |}.

(** struct PendingInlineTransaction : public types::Transaction *)
Record PendingInlineTransaction := {
  PendingInlineTransaction_super :> Transaction
}.

#[global] Instance PendingInlineTransaction_inhabited
    : Inhabited PendingInlineTransaction :=
  populate {| PendingInlineTransaction_super := inhabitant |}.

(** ** The execution-output tree

    MessageOutput, NotifyOutput and InlineTransaction refer to each other:
    a notification carries the output of the notified account, an inline
    transaction the outputs of its messages. *)
Inductive MessageOutput : Type :=
  Build_MessageOutput
    (notify : list NotifyOutput)
    (inline_transaction : InlineTransaction)
    (deferred_transactions : list GeneratedTransaction)
with NotifyOutput : Type :=
  Build_NotifyOutput (name : AccountName) (output : MessageOutput)
with InlineTransaction : Type :=
  Build_InlineTransaction (base : Transaction) (output : list MessageOutput).

Definition notify (m : MessageOutput) : list NotifyOutput :=
  match m with Build_MessageOutput n _ _ => n end.
Definition inline_transaction (m : MessageOutput) : InlineTransaction :=
  match m with Build_MessageOutput _ i _ => i end.
Definition deferred_transactions (m : MessageOutput) : list GeneratedTransaction :=
  match m with Build_MessageOutput _ _ d => d end.

Definition NotifyOutput_name (n : NotifyOutput) : AccountName :=
  match n with Build_NotifyOutput a _ => a end.
Definition NotifyOutput_output (n : NotifyOutput) : MessageOutput :=
  match n with Build_NotifyOutput _ o => o end.

Definition InlineTransaction_base (i : InlineTransaction) : Transaction :=
  match i with Build_InlineTransaction b _ => b end.
Definition InlineTransaction_output (i : InlineTransaction) : list MessageOutput :=
  match i with Build_InlineTransaction _ o => o end.

Coercion InlineTransaction_base : InlineTransaction >-> Transaction.

(** explicit InlineTransaction(const PendingInlineTransaction& t)
      : Transaction(t) {} *)
Definition InlineTransaction_of_pending (t : PendingInlineTransaction)
    : InlineTransaction :=
  Build_InlineTransaction t [].

(** InlineTransaction() {} *)
Definition InlineTransaction_default : InlineTransaction :=
  Build_InlineTransaction inhabitant [].

(** A default-constructed MessageOutput: every member default-constructed. *)
Definition MessageOutput_default : MessageOutput :=
  Build_MessageOutput [] InlineTransaction_default [].

Definition NotifyOutput_default : NotifyOutput :=
  Build_NotifyOutput inhabitant MessageOutput_default.

(** struct ProcessedTransaction : public SignedTransaction *)
Record ProcessedTransaction := {
  ProcessedTransaction_super :> SignedTransaction;
  ProcessedTransaction_output : list MessageOutput
}.

(** explicit ProcessedTransaction(const SignedTransaction& t) *)
Definition ProcessedTransaction_of_signed (t : SignedTransaction)
    : ProcessedTransaction :=
  {| ProcessedTransaction_super := t; ProcessedTransaction_output := [] |}.

(** ProcessedTransaction() {} *)
Definition ProcessedTransaction_default : ProcessedTransaction :=
  {| ProcessedTransaction_super := inhabitant;
     ProcessedTransaction_output := [] |}.

(** struct ProcessedGeneratedTransaction: not derived from a transaction *)
Record ProcessedGeneratedTransaction := {
  ProcessedGeneratedTransaction_id : generated_transaction_id_type;
  ProcessedGeneratedTransaction_output : list MessageOutput
}.

(** explicit ProcessedGeneratedTransaction(const generated_transaction_id_type& _id)
      : id(_id) {} *)
Definition ProcessedGeneratedTransaction_of_id
    (_id : generated_transaction_id_type) : ProcessedGeneratedTransaction :=
  {| ProcessedGeneratedTransaction_id := _id;
     ProcessedGeneratedTransaction_output := [] |}.

(** explicit ProcessedGeneratedTransaction(const GeneratedTransaction& t)
      : id(t.id) {} *)
Definition ProcessedGeneratedTransaction_of_generated
    (t : GeneratedTransaction) : ProcessedGeneratedTransaction :=
  {| ProcessedGeneratedTransaction_id := GeneratedTransaction_id t;
     ProcessedGeneratedTransaction_output := [] |}.

(** ProcessedGeneratedTransaction() {} *)
Definition ProcessedGeneratedTransaction_default : ProcessedGeneratedTransaction :=
  {| ProcessedGeneratedTransaction_id := inhabitant;
     ProcessedGeneratedTransaction_output := [] |}.

End Transactions.

(** ** The reflection declarations and the canonical binary encoding *)
Section Reflection.
Context `{Externals}.

(** Modelled from the spec: the reflection of types::Transaction, declared
    with the type in eos/chain/types.hpp. The base transaction fields are
    messages, ref_block_num, ref_block_prefix, expiration. *)
Definition reflect_Transaction : reflector Transaction :=
  FC_REFLECT
    [ field "messages" messages set_messages;
      @field _ _ UInt16_raw "ref_block_num" ref_block_num set_ref_block_num;
      @field _ _ UInt32_raw "ref_block_prefix" ref_block_prefix
        set_ref_block_prefix;
      field "expiration" expiration set_expiration ].

#[global] Instance Transaction_raw : Raw Transaction :=
  raw_of_reflector reflect_Transaction.

(** Modelled from the spec: the reflection of types::SignedTransaction,
    declared with the type in eos/chain/types.hpp: the transaction fields,
    then the signatures. *)
Definition reflect_types_SignedTransaction : reflector types_SignedTransaction :=
  FC_REFLECT_DERIVED
    [ inherit types_SignedTransaction_base set_types_SignedTransaction_base
        reflect_Transaction ]
    [ field "signatures" signatures set_signatures ].

#[global] Instance types_SignedTransaction_raw : Raw types_SignedTransaction :=
  raw_of_reflector reflect_types_SignedTransaction.

(** FC_REFLECT(eos::chain::GeneratedTransaction, (id)) *)
Definition reflect_GeneratedTransaction : reflector GeneratedTransaction :=
  FC_REFLECT
    [ field "id" GeneratedTransaction_id set_GeneratedTransaction_id ].

#[global] Instance GeneratedTransaction_raw : Raw GeneratedTransaction :=
  raw_of_reflector reflect_GeneratedTransaction.

(** FC_REFLECT_DERIVED(eos::chain::SignedTransaction,
      (eos::types::SignedTransaction), ) *)
Definition reflect_SignedTransaction : reflector SignedTransaction :=
  FC_REFLECT_DERIVED
    [ inherit SignedTransaction_super (fun b _ => Build_SignedTransaction b)
        reflect_types_SignedTransaction ]
    [ ].

#[global] Instance SignedTransaction_raw : Raw SignedTransaction :=
  raw_of_reflector reflect_SignedTransaction.

(** FC_REFLECT_DERIVED(eos::chain::PendingInlineTransaction,
      (eos::types::Transaction), ) *)
Definition reflect_PendingInlineTransaction : reflector PendingInlineTransaction :=
  FC_REFLECT_DERIVED
    [ inherit PendingInlineTransaction_super
        (fun b _ => Build_PendingInlineTransaction b) reflect_Transaction ]
    [ ].

#[global] Instance PendingInlineTransaction_raw : Raw PendingInlineTransaction :=
  raw_of_reflector reflect_PendingInlineTransaction.

Definition set_notify (x : list NotifyOutput) (m : MessageOutput) :=
  Build_MessageOutput x (inline_transaction m) (deferred_transactions m).
Definition set_inline_transaction (x : InlineTransaction) (m : MessageOutput) :=
  Build_MessageOutput (notify m) x (deferred_transactions m).
Definition set_deferred_transactions (x : list GeneratedTransaction)
    (m : MessageOutput) :=
  Build_MessageOutput (notify m) (inline_transaction m) x.
Definition set_NotifyOutput_name (x : AccountName) (n : NotifyOutput) :=
  Build_NotifyOutput x (NotifyOutput_output n).
Definition set_NotifyOutput_output (x : MessageOutput) (n : NotifyOutput) :=
  Build_NotifyOutput (NotifyOutput_name n) x.
Definition set_InlineTransaction_base (x : Transaction) (i : InlineTransaction) :=
  Build_InlineTransaction x (InlineTransaction_output i).
Definition set_InlineTransaction_output (x : list MessageOutput)
    (i : InlineTransaction) :=
  Build_InlineTransaction (InlineTransaction_base i) x.
Definition set_ProcessedTransaction_super (x : types_SignedTransaction)
    (p : ProcessedTransaction) : ProcessedTransaction :=
  {| ProcessedTransaction_super := Build_SignedTransaction x;
     ProcessedTransaction_output := ProcessedTransaction_output p |}.
Definition set_ProcessedTransaction_output (x : list MessageOutput)
    (p : ProcessedTransaction) : ProcessedTransaction :=
  {| ProcessedTransaction_super := p; ProcessedTransaction_output := x |}.
Definition set_ProcessedGeneratedTransaction_id
    (x : generated_transaction_id_type) (p : ProcessedGeneratedTransaction) :=
  {| ProcessedGeneratedTransaction_id := x;
     ProcessedGeneratedTransaction_output := ProcessedGeneratedTransaction_output p |}.
Definition set_ProcessedGeneratedTransaction_output (x : list MessageOutput)
    (p : ProcessedGeneratedTransaction) :=
  {| ProcessedGeneratedTransaction_id := ProcessedGeneratedTransaction_id p;
     ProcessedGeneratedTransaction_output := x |}.

(** The declarations of the output tree, over the packing overload of
    MessageOutput they all come back to. *)
Section Tree.
Variable MessageOutput_overload : Raw MessageOutput.

(** FC_REFLECT(eos::chain::NotifyOutput, (name)(output)) *)
Definition reflect_NotifyOutput : reflector NotifyOutput :=
  FC_REFLECT
    [ field "name" NotifyOutput_name set_NotifyOutput_name;
      field "output" NotifyOutput_output set_NotifyOutput_output ].

(** FC_REFLECT_DERIVED(eos::chain::InlineTransaction,
      (eos::types::Transaction), (output)) *)
Definition reflect_InlineTransaction : reflector InlineTransaction :=
  FC_REFLECT_DERIVED
    [ inherit InlineTransaction_base set_InlineTransaction_base
        reflect_Transaction ]
    [ field "output" InlineTransaction_output set_InlineTransaction_output ].

Definition NotifyOutput_overload : Raw NotifyOutput :=
  {| pack := pack_reflected reflect_NotifyOutput;
     unpack := unpack_reflected reflect_NotifyOutput NotifyOutput_default |}.

Definition InlineTransaction_overload : Raw InlineTransaction :=
  {| pack := pack_reflected reflect_InlineTransaction;
     unpack := unpack_reflected reflect_InlineTransaction InlineTransaction_default |}.

(** FC_REFLECT(eos::chain::MessageOutput,
      (notify)(inline_transaction)(deferred_transactions)) *)
Definition reflect_MessageOutput : reflector MessageOutput :=
  FC_REFLECT
    [ @field _ _ (@vector_raw _ NotifyOutput_overload)
        "notify" notify set_notify;
      @field _ _ InlineTransaction_overload
        "inline_transaction" inline_transaction set_inline_transaction;
      field "deferred_transactions"
        deferred_transactions set_deferred_transactions ].

(** FC_REFLECT_DERIVED(eos::chain::ProcessedTransaction,
      (eos::types::SignedTransaction), (output)) *)
Definition reflect_ProcessedTransaction : reflector ProcessedTransaction :=
  FC_REFLECT_DERIVED
    [ inherit (fun p : ProcessedTransaction => p : types_SignedTransaction)
        set_ProcessedTransaction_super reflect_types_SignedTransaction ]
    [ field "output" ProcessedTransaction_output
        set_ProcessedTransaction_output ].

(** FC_REFLECT(eos::chain::ProcessedGeneratedTransaction, (id)(output)) *)
Definition reflect_ProcessedGeneratedTransaction
    : reflector ProcessedGeneratedTransaction :=
  FC_REFLECT
    [ field "id" ProcessedGeneratedTransaction_id
        set_ProcessedGeneratedTransaction_id;
      field "output" ProcessedGeneratedTransaction_output
        set_ProcessedGeneratedTransaction_output ].
End Tree.

(** Packing a MessageOutput descends the tree. *)
Fixpoint pack_MessageOutput (m : MessageOutput) {struct m} : bytes :=
  pack_reflected
    (reflect_MessageOutput
       {| pack := pack_MessageOutput; unpack := fun _ => None |}) m.

(** Unpacking reads one nesting level per unit of [depth]. *)
Fixpoint unpack_MessageOutput_within (depth : nat) (bs : bytes)
    : option (MessageOutput * bytes) :=
  match depth with
  | O => None
  | S depth' =>
      unpack_reflected
        (reflect_MessageOutput
           {| pack := pack_MessageOutput;
              unpack := unpack_MessageOutput_within depth' |})
        MessageOutput_default bs
  end.

(** Every nesting level takes at least one byte of the stream. *)
#[global] Instance MessageOutput_raw : Raw MessageOutput :=
  {| pack := pack_MessageOutput;
     unpack := fun bs => unpack_MessageOutput_within (S (length bs)) bs |}.

#[global] Instance NotifyOutput_raw : Raw NotifyOutput :=
  NotifyOutput_overload MessageOutput_raw.
#[global] Instance InlineTransaction_raw : Raw InlineTransaction :=
  InlineTransaction_overload MessageOutput_raw.
#[global] Instance ProcessedTransaction_raw : Raw ProcessedTransaction :=
  {| pack := pack_reflected (reflect_ProcessedTransaction MessageOutput_raw);
     unpack := unpack_reflected (reflect_ProcessedTransaction MessageOutput_raw)
                 ProcessedTransaction_default |}.
#[global] Instance ProcessedGeneratedTransaction_raw
    : Raw ProcessedGeneratedTransaction :=
  {| pack := pack_reflected (reflect_ProcessedGeneratedTransaction MessageOutput_raw);
     unpack := unpack_reflected (reflect_ProcessedGeneratedTransaction MessageOutput_raw)
                 ProcessedGeneratedTransaction_default |}.
End Reflection.

(** ** Operations on transactions *)
Section Operations.
Context `{Externals}.

(** t.messages[index] with an int index: std::vector::operator[] checks no
    bound; outside the vector there is no element to speak of. *)
Definition vector_at {A : Type} (v : list A) (index : Z) : option A :=
  if 0 <=? index then v !! Z.to_nat index else None.

(** template <typename T> void transaction_set_message(Transaction& t,
      int index, const types::FuncName& type, T&& value) *)
Definition transaction_set_message {T : Type} `{Raw T} (t : Transaction)
    (index : Z) (type : FuncName) (value : T) : outcome Transaction :=
  match vector_at (messages t) index with
  | Some old =>
      (* Message m(t.messages[index]); m.set(type, value); *)
      let m := Message_set type value old in
      (* t.messages[index] = m; *)
      Returns (set_messages (<[Z.to_nat index := m]> (messages t)) t)
  | None => Undefined
  end.

(** transaction_emplace_message, transaction_emplace_serialized_message:
    t.messages.emplace_back(m), for the message [m] built from the
    arguments. *)
Definition transaction_emplace_message (t : Transaction) (m : Message)
    : Transaction :=
  set_messages (messages t ++ [m]) t.

(** inline void transaction_clear(Transaction& t) { t.messages.clear(); } *)
Definition transaction_clear (t : Transaction) : Transaction :=
  set_messages [] t.

(** void clear(): transaction_clear on this transaction, then
    signatures.clear(). *)
Definition SignedTransaction_clear (s : SignedTransaction) : SignedTransaction :=
  let s1 := set_types_SignedTransaction_base (transaction_clear s) s in
  {| SignedTransaction_super := set_signatures [] s1 |}.

(** *** Freshness (TaPoS) *)

(** Modelled from the spec: block_id_type (eos/chain/types.hpp) as its
    bytes. The first 4 bytes of a block id encode the block height (read
    here most significant byte first); bytes 4-7 are the prefix (read here
    in memory order). A byte past the end of the id reads as 0. *)
Definition block_id_type := bytes.

(** Modelled from the spec: byte [i] of a block id. *)
Definition block_id_byte (b : block_id_type) (i : nat) : Z :=
  Z_of_byte (nth i b "000"%byte).

(** Modelled from the spec: the block height that the first 4 bytes of a
    block id encode. *)
Definition block_height (b : block_id_type) : Z :=
  Z.shiftl (block_id_byte b 0) 24 + Z.shiftl (block_id_byte b 1) 16
  + Z.shiftl (block_id_byte b 2) 8 + block_id_byte b 3.

(** Modelled from the spec: bytes 4-7 of a block id, as the 32-bit
    prefix. *)
Definition block_prefix (b : block_id_type) : Z :=
  block_id_byte b 4 + Z.shiftl (block_id_byte b 5) 8
  + Z.shiftl (block_id_byte b 6) 16 + Z.shiftl (block_id_byte b 7) 24.

(** Modelled from the spec: the low 16 bits of a height. *)
Definition low16 (z : Z) : UInt16 := Z.land z 65535.

(** Modelled from the spec: transaction_set_reference_block, whose body is
    in transaction.cpp. It extracts the block height from the first 4 bytes
    of reference_block, stores its low 16 bits into ref_block_num, and
    stores bytes 4-7 of reference_block into ref_block_prefix. *)
Definition transaction_set_reference_block (t : Transaction)
    (reference_block : block_id_type) : Transaction :=
  set_ref_block_prefix (block_prefix reference_block)
    (set_ref_block_num (low16 (block_height reference_block)) t).

(** Modelled from the spec: transaction_verify_reference_block, whose body
    is in transaction.cpp. It recomputes the low-16-bit height and the
    byte-4-7 slice from reference_block and returns true iff both match the
    transaction's stored values. *)
Definition transaction_verify_reference_block (t : Transaction)
    (reference_block : block_id_type) : bool :=
  (ref_block_num t =? low16 (block_height reference_block))
  && (ref_block_prefix t =? block_prefix reference_block).

(** *** Digest, identity and signing *)

(** Modelled from the spec: transaction_digest, whose body is in
    transaction.cpp: a deterministic cryptographic hash over the canonical
    encoding of the core transaction fields. The argument is a
    [const Transaction&]: of a signed transaction it sees the base only. *)
Definition transaction_digest (t : Transaction) : digest_type :=
  digest_of_bytes (pack t).

(** Modelled from the spec: SignedTransaction::sig_digest, whose body is in
    transaction.cpp. It combines transaction_digest with a chain identifier
    to produce the digest that is actually signed. *)
Definition SignedTransaction_sig_digest (s : SignedTransaction)
    (chain_id : chain_id_type) : digest_type :=
  digest_with_chain chain_id (transaction_digest s).

(** Modelled from the spec: SignedTransaction::id, whose body is in
    transaction.cpp: the canonical identifier, derived from
    transaction_digest, independent of the signatures. *)
Definition SignedTransaction_id (s : SignedTransaction) : transaction_id_type :=
  transaction_id_of_digest (transaction_digest s).

(** signatures.push_back(sig) *)
Definition push_signature (sig : Signature) (s : SignedTransaction)
    : SignedTransaction :=
  {| SignedTransaction_super := set_signatures (signatures s ++ [sig]) s |}.

(** Modelled from the spec: the two overloads of SignedTransaction::sign,
    whose bodies are in transaction.cpp. A call is a step from the
    transaction before to the returned signature and the transaction
    after. The first computes a signature over sig_digest(chain_id),
    appends it to the signature list and returns it. *)
Definition SignedTransaction_sign (key : private_key_type)
    (chain_id : chain_id_type) (s : SignedTransaction)
    : Signature * SignedTransaction :=
  let sig := sign_compact key (SignedTransaction_sig_digest s chain_id) in
  (sig, push_signature sig s).

(** Modelled from the spec: the second overload of SignedTransaction::sign,
    invoked on a const transaction. It returns the signature and does not
    append. *)
Definition SignedTransaction_sign_const (key : private_key_type)
    (chain_id : chain_id_type) (s : SignedTransaction)
    : Signature * SignedTransaction :=
  (sign_compact key (SignedTransaction_sig_digest s chain_id), s).

End Operations.

(** ** Values in the range of their types *)
Section Validity.
Context `{Externals}.
Context {Message_ok : RawOk Message} {Time_ok : RawOk Time}
  {Signature_ok : RawOk Signature}.

Definition Transaction_valid (t : Transaction) : Prop :=
  vector_valid (messages t)
  /\ 0 <= ref_block_num t < 2 ^ 16
  /\ 0 <= ref_block_prefix t < 2 ^ 32
  /\ raw_valid (expiration t).

Definition types_SignedTransaction_valid (s : types_SignedTransaction) : Prop :=
  Transaction_valid s /\ vector_valid (signatures s).

End Validity.

(** ** A small instance of the external types

    Stand-ins used to run the definitions on concrete transactions: a
    message is its code, its type and its payload; names, times and ids are
    integers; signatures, chain ids and digests are byte strings; the
    stand-in for the hash keeps the bytes as they are. *)
Module Sample.

#[global] Instance byte_raw : Raw byte :=
  {| pack := fun b => [b];
     unpack := fun bs => match bs with [] => None | b :: bs' => Some (b, bs') end |}.

Definition uint64 := Z.

(** A sample message: its code as what else it holds, its type, its
    payload. *)
Definition message : Type := message_of uint64 uint64.
Definition code (m : message) : uint64 := Message_rest_of m.
Definition uint64_raw : Raw uint64 :=
  {| pack := pack_le 8; unpack := unpack_le 8 |}.

Definition message_reflector : reflector message :=
  FC_REFLECT
    [ @field _ _ uint64_raw "code" code
        (fun x m => Build_Message x (Message_type m) (Message_data m));
      @field _ _ uint64_raw "type" Message_type
        (fun x m => Build_Message (code m) x (Message_data m));
      field "data" Message_data
        (fun x m => Build_Message (code m) (Message_type m) x) ].

#[global] Instance message_inhabited : Inhabited message :=
  populate (Build_Message 0 0 []).

#[global] Instance message_raw : Raw message :=
  raw_of_reflector message_reflector.

#[global] Instance externals : Externals := {|
  FuncName := uint64;
  Message_rest := uint64;
  AccountName := uint64;
  Time := UInt32;
  Signature := bytes;
  generated_transaction_id_type := UInt32;
  chain_id_type := bytes;
  digest_type := bytes;
  transaction_id_type := bytes;
  private_key_type := Z;
  Message_raw := message_raw;
  AccountName_raw := uint64_raw;
  Time_raw := UInt32_raw;
  Signature_raw := vector_raw;
  generated_transaction_id_raw := UInt32_raw;
  AccountName_inhabited := populate 0;
  Time_inhabited := populate 0;
  generated_transaction_id_inhabited := populate 0;
  digest_of_bytes := fun bs => bs;
  digest_with_chain := fun chain_id d => chain_id ++ d;
  transaction_id_of_digest := fun d => d;
  sign_compact := fun key d => byte_of_Z key :: d
|}.

Definition transfer : message :=
  {| Message_rest_of := 1; Message_type := 2;
     Message_data := ["a"; "b"]%byte |}.

Definition issue : message :=
  {| Message_rest_of := 1; Message_type := 3; Message_data := ["c"]%byte |}.

(** A transaction of two messages, referring to block 258. *)
Definition trx : Transaction :=
  {| messages := [transfer; issue]; ref_block_num := 258;
     ref_block_prefix := 67305985; expiration := 1000 |}.

Definition empty_trx : Transaction :=
  {| messages := []; ref_block_num := 258;
     ref_block_prefix := 67305985; expiration := 1000 |}.

Definition signed : SignedTransaction :=
  {| SignedTransaction_super :=
       {| types_SignedTransaction_base := trx;
          signatures := [["s"; "1"]%byte] |} |}.

Definition signed_twice : SignedTransaction :=
  {| SignedTransaction_super :=
       {| types_SignedTransaction_base := trx;
          signatures := [["s"; "1"]%byte; ["s"; "2"]%byte] |} |}.

(** The generated transaction with id 7 carrying [trx]. *)
Definition generated : GeneratedTransaction := GeneratedTransaction_new 7 trx.

(** What is left of it with a default-constructed body. *)
Definition generated_no_body : GeneratedTransaction :=
  GeneratedTransaction_new 7 inhabitant.

Definition pending : PendingInlineTransaction :=
  {| PendingInlineTransaction_super := trx |}.

(** A block id: height 0x00010102 in bytes 0-3, then bytes 1 2 3 4. *)
Definition block : block_id_type :=
  ["000"; "001"; "001"; "002"; "001"; "002"; "003"; "004"; "x"; "y"]%byte.

(** The output of a message that deferred [g]. *)
Definition deferring (g : GeneratedTransaction) : MessageOutput :=
  Build_MessageOutput [] InlineTransaction_default [g].

End Sample.

(** ** Reading a message, and calls in sequence *)
Section MessageAccess.
Context `{Externals}.

(** template <typename T> T transaction_message_as(Transaction& t, int index):
    Message m(t.messages[index]); return m.as<T>();
    Message::as<T> (eos/chain/message.hpp) is the argument [Message_as]; it
    may throw when the payload does not decode. *)
Definition transaction_message_as {T : Type} (Message_as : Message -> outcome T)
    (t : Transaction) (index : Z) : outcome T :=
  match vector_at (messages t) index with
  | Some m => Message_as m
  | None => Undefined
  end.

(** One call after another: the second runs when the first returned. *)
Definition and_then {A B : Type} (o : outcome A) (f : A -> outcome B)
    : outcome B :=
  match o with
  | Returns a => f a
  | Throws e => Throws e
  | Undefined => Undefined
  end.

End MessageAccess.

(** ** What is left of an output tree in its encoding *)
Section ForgetBodies.
Context `{Externals}.

(** A generated transaction as its encoding has it: the id, over a
    default-constructed body. *)
Definition forget_body (g : GeneratedTransaction) : GeneratedTransaction :=
  GeneratedTransaction_new (GeneratedTransaction_id g) inhabitant.

(** An output tree with the body of every deferred transaction forgotten, at
    every level. *)
Fixpoint MessageOutput_forget_bodies (m : MessageOutput) : MessageOutput :=
  match m with
  | Build_MessageOutput n i d =>
      Build_MessageOutput (map NotifyOutput_forget_bodies n)
        (InlineTransaction_forget_bodies i) (map forget_body d)
  end
with NotifyOutput_forget_bodies (n : NotifyOutput) : NotifyOutput :=
  match n with
  | Build_NotifyOutput a o => Build_NotifyOutput a (MessageOutput_forget_bodies o)
  end
with InlineTransaction_forget_bodies (i : InlineTransaction) : InlineTransaction :=
  match i with
  | Build_InlineTransaction b o =>
      Build_InlineTransaction b (map MessageOutput_forget_bodies o)
  end.

Definition ProcessedTransaction_forget_bodies (p : ProcessedTransaction)
    : ProcessedTransaction :=
  {| ProcessedTransaction_super := p;
     ProcessedTransaction_output :=
       map MessageOutput_forget_bodies (ProcessedTransaction_output p) |}.

Definition ProcessedGeneratedTransaction_forget_bodies
    (p : ProcessedGeneratedTransaction) : ProcessedGeneratedTransaction :=
  {| ProcessedGeneratedTransaction_id := ProcessedGeneratedTransaction_id p;
     ProcessedGeneratedTransaction_output :=
       map MessageOutput_forget_bodies (ProcessedGeneratedTransaction_output p) |}.

Context {Message_ok : RawOk Message} {Time_ok : RawOk Time}
  {Signature_ok : RawOk Signature} {AccountName_ok : RawOk AccountName}
  {id_ok : RawOk generated_transaction_id_type}.

(** The output trees whose fields are in the range of their types, at every
    level. *)
Inductive MessageOutput_valid : MessageOutput -> Prop :=
  | MessageOutput_valid_intro (n : list NotifyOutput) (i : InlineTransaction)
      (d : list GeneratedTransaction) :
      Forall NotifyOutput_valid n ->
      Z.of_nat (length n) < 2 ^ 32 ->
      InlineTransaction_valid i ->
      Forall (fun g => raw_valid (GeneratedTransaction_id g)) d ->
      Z.of_nat (length d) < 2 ^ 32 ->
      MessageOutput_valid (Build_MessageOutput n i d)
with NotifyOutput_valid : NotifyOutput -> Prop :=
  | NotifyOutput_valid_intro (a : AccountName) (o : MessageOutput) :
      raw_valid a -> MessageOutput_valid o ->
      NotifyOutput_valid (Build_NotifyOutput a o)
with InlineTransaction_valid : InlineTransaction -> Prop :=
  | InlineTransaction_valid_intro (b : Transaction) (o : list MessageOutput) :
      Transaction_valid b ->
      Forall MessageOutput_valid o ->
      Z.of_nat (length o) < 2 ^ 32 ->
      InlineTransaction_valid (Build_InlineTransaction b o).

Definition outputs_valid (o : list MessageOutput) : Prop :=
  Forall MessageOutput_valid o /\ Z.of_nat (length o) < 2 ^ 32.

End ForgetBodies.

(** ** A sample output tree *)
Module SampleTree.
Import Sample.

(** The output of a message that notified account 5, ran the sample
    transaction inline and deferred the sample generated transaction; the
    notification and the inline message deferred one transaction each. *)
Definition output : MessageOutput :=
  Build_MessageOutput
    [Build_NotifyOutput 5 (deferring generated)]
    (Build_InlineTransaction trx [deferring generated_no_body])
    [generated].

Definition notification : NotifyOutput := Build_NotifyOutput 5 output.

Definition inlined : InlineTransaction := Build_InlineTransaction trx [output].

Definition processed : ProcessedTransaction :=
  {| ProcessedTransaction_super := signed;
     ProcessedTransaction_output := [output; deferring generated] |}.

Definition processed_generated : ProcessedGeneratedTransaction :=
  {| ProcessedGeneratedTransaction_id := 7;
     ProcessedGeneratedTransaction_output := [output] |}.

(** Message::as<uint32_t> for the sample messages: the front of the payload
    read as a uint32_t, a decode mismatch when it is too short. *)
Definition message_as_UInt32 (m : message) : outcome UInt32 :=
  match @unpack _ UInt32_raw (Message_data m) with
  | Some (z, _) => Returns z
  | None => Throws MessageDecodeMismatch
  end.

End SampleTree.

(** * Properties *)

(** ** Constructors of the processed forms *)
Section Constructors.
Context `{Externals}.

(** C9. An InlineTransaction built from a PendingInlineTransaction has the
    base transaction of the pending request, field for field, and an empty
    output sequence; a default-constructed InlineTransaction has an empty
    output sequence too. *)
Theorem InlineTransaction_of_pending_copies_base (t : PendingInlineTransaction) :
  let i := InlineTransaction_of_pending t in
  InlineTransaction_base i = PendingInlineTransaction_super t
  /\ messages i = messages t
  /\ ref_block_num i = ref_block_num t
  /\ ref_block_prefix i = ref_block_prefix t
  /\ expiration i = expiration t
  /\ InlineTransaction_output i = []
  /\ InlineTransaction_output InlineTransaction_default = [].
Proof. cbn. repeat split. Qed.

(** C10. A ProcessedGeneratedTransaction built from a GeneratedTransaction
    keeps the id and nothing else: its id is the source's id, its output
    sequence is empty, it is the value built from the id alone, and two
    sources with the same id and any two bodies give the same value. *)
Theorem ProcessedGeneratedTransaction_of_generated_keeps_id_only
    (t : GeneratedTransaction) :
  let p := ProcessedGeneratedTransaction_of_generated t in
  ProcessedGeneratedTransaction_id p = GeneratedTransaction_id t
  /\ ProcessedGeneratedTransaction_output p = []
  /\ p = ProcessedGeneratedTransaction_of_id (GeneratedTransaction_id t)
  /\ forall body : Transaction,
       ProcessedGeneratedTransaction_of_generated
         (GeneratedTransaction_new (GeneratedTransaction_id t) body) = p.
Proof.
  destruct t as [body0 id0]. cbn.
  split; [reflexivity|]. split; [reflexivity|]. split; [reflexivity|].
  intros body. reflexivity.
Qed.

End Constructors.

(** ** Freshness *)
Section Freshness.
Context `{Externals}.

Lemma low16_mod (z : Z) : low16 z = z `mod` 2 ^ 16.
Proof. unfold low16. change 65535 with (Z.ones 16). apply Z.land_ones. lia. Qed.

Lemma low16_range (z : Z) : 0 <= low16 z < 65536.
Proof. rewrite low16_mod. apply Z.mod_pos_bound. lia. Qed.

Lemma transaction_set_reference_block_fields (t : Transaction) (B : block_id_type) :
  let t' := transaction_set_reference_block t B in
  ref_block_num t' = low16 (block_height B)
  /\ ref_block_prefix t' = block_prefix B
  /\ messages t' = messages t
  /\ expiration t' = expiration t.
Proof. cbn. auto. Qed.

(** C2. transaction_verify_reference_block(t, B) is true exactly when
    ref_block_num is the low 16 bits of the height in the first 4 bytes of
    B and ref_block_prefix is bytes 4-7 of B; it is true right after
    transaction_set_reference_block(t, B); and on a mismatch it returns
    false: it is a total predicate. *)
Theorem transaction_verify_reference_block_iff (t : Transaction)
    (B : block_id_type) :
  (transaction_verify_reference_block t B = true <->
     ref_block_num t = block_height B `mod` 2 ^ 16
     /\ ref_block_prefix t = block_prefix B)
  /\ transaction_verify_reference_block
       (transaction_set_reference_block t B) B = true
  /\ (transaction_verify_reference_block t B = false <->
        ~ (ref_block_num t = block_height B `mod` 2 ^ 16
           /\ ref_block_prefix t = block_prefix B)).
Proof.
  assert (Hiff : transaction_verify_reference_block t B = true <->
            ref_block_num t = block_height B `mod` 2 ^ 16
            /\ ref_block_prefix t = block_prefix B).
  { unfold transaction_verify_reference_block.
    rewrite andb_true_iff, !Z.eqb_eq, low16_mod. reflexivity. }
  split; [exact Hiff|]. split.
  - unfold transaction_verify_reference_block. cbn.
    rewrite !Z.eqb_refl. reflexivity.
  - rewrite <- Hiff.
    destruct (transaction_verify_reference_block t B); split; intro Hx;
      try reflexivity; try discriminate.
    + exfalso. apply Hx. reflexivity.
Qed.

End Freshness.

(** ** The message container *)
Section MessageContainer.
Context `{Externals}.

Lemma vector_at_Some {A : Type} (v : list A) (index : Z) :
  0 <= index < Z.of_nat (length v) ->
  exists x, vector_at v index = Some x /\ v !! Z.to_nat index = Some x.
Proof.
  intros [Hlo Hhi]. unfold vector_at.
  destruct (Z.leb_spec 0 index) as [_|Hneg]; [|lia].
  destruct (lookup_lt_is_Some_2 v (Z.to_nat index)) as [x Hx]; [lia|].
  exists x. split; assumption.
Qed.

Lemma vector_at_None {A : Type} (v : list A) (index : Z) :
  ~ (0 <= index < Z.of_nat (length v)) -> vector_at v index = None.
Proof.
  intros Hout. unfold vector_at.
  destruct (Z.leb_spec 0 index) as [Hlo|Hneg]; [|reflexivity].
  apply lookup_ge_None_2. lia.
Qed.

(** C4, as the code has it. For a valid index, transaction_set_message
    returns, and the message at that index is now a message of the given
    type carrying the serialized value: the old message after
    Message::set(type, value), which keeps what else the old message held.
    The other messages, the number of messages and the other fields are as
    before. For an index that is not valid nothing is thrown: the vector is
    indexed without a bound check and the call has no defined result. *)
Theorem transaction_set_message_spec {T : Type} `{Raw T} (t : Transaction)
    (index : Z) (type : FuncName) (value : T) :
  (0 <= index < Z.of_nat (length (messages t)) ->
     exists (old : Message) (t' : Transaction) (m : Message),
       messages t !! Z.to_nat index = Some old
       /\ transaction_set_message t index type value = Returns t'
       /\ messages t' !! Z.to_nat index = Some m
       /\ m = Message_set type value old
       /\ Message_type m = type
       /\ Message_data m = pack value
       /\ Message_rest_of m = Message_rest_of old
       /\ (forall j : nat, j <> Z.to_nat index ->
             messages t' !! j = messages t !! j)
       /\ length (messages t') = length (messages t)
       /\ ref_block_num t' = ref_block_num t
       /\ ref_block_prefix t' = ref_block_prefix t
       /\ expiration t' = expiration t)
  /\ (~ (0 <= index < Z.of_nat (length (messages t))) ->
        transaction_set_message t index type value = Undefined).
Proof.
  split.
  - intros Hin.
    destruct (vector_at_Some (messages t) index Hin) as (old & Hat & Hlk).
    exists old.
    exists (set_messages
              (<[Z.to_nat index := Message_set type value old]> (messages t)) t).
    exists (Message_set type value old).
    unfold transaction_set_message. rewrite Hat. cbn.
    split; [exact Hlk|]. split; [reflexivity|]. split.
    { apply list_lookup_insert_eq. lia. }
    split; [reflexivity|]. split; [reflexivity|].
    split; [reflexivity|]. split; [reflexivity|].
    split.
    { intros j Hj. apply list_lookup_insert_ne. congruence. }
    split; [apply length_insert|]. auto.
  - intros Hout. unfold transaction_set_message.
    rewrite (vector_at_None _ _ Hout). reflexivity.
Qed.

Lemma transaction_clear_fields (t : Transaction) :
  messages (transaction_clear t) = []
  /\ ref_block_num (transaction_clear t) = ref_block_num t
  /\ ref_block_prefix (transaction_clear t) = ref_block_prefix t
  /\ expiration (transaction_clear t) = expiration t.
Proof. cbn. auto. Qed.

(** C5. SignedTransaction::clear empties the messages and the signatures
    and leaves ref_block_num, ref_block_prefix and expiration as they
    were: the cleared transaction is the transaction freshly constructed
    from no messages and the same other fields, and has its id(). *)
Theorem SignedTransaction_clear_spec (s : SignedTransaction) :
  let c := SignedTransaction_clear s in
  let fresh :=
    SignedTransaction_new [] (ref_block_num s) (ref_block_prefix s)
      (expiration s) in
  messages c = []
  /\ signatures c = []
  /\ ref_block_num c = ref_block_num s
  /\ ref_block_prefix c = ref_block_prefix s
  /\ expiration c = expiration s
  /\ c = fresh
  /\ SignedTransaction_id c = SignedTransaction_id fresh
  /\ transaction_digest c = transaction_digest fresh.
Proof.
  destruct s as [[[msgs rbn rbp exp] sigs]]. cbn.
  repeat split.
Qed.

End MessageContainer.

(** ** Digests and signing *)
Section Digests.
Context `{Externals}.

Lemma Transaction_eq (t1 t2 : Transaction) :
  messages t1 = messages t2 ->
  ref_block_num t1 = ref_block_num t2 ->
  ref_block_prefix t1 = ref_block_prefix t2 ->
  expiration t1 = expiration t2 ->
  t1 = t2.
Proof. destruct t1, t2; cbn; intros; congruence. Qed.

Lemma transaction_digest_push_signature (sig : Signature) (s : SignedTransaction) :
  transaction_digest (push_signature sig s) = transaction_digest s.
Proof. reflexivity. Qed.

Lemma SignedTransaction_id_push_signature (sig : Signature) (s : SignedTransaction) :
  SignedTransaction_id (push_signature sig s) = SignedTransaction_id s.
Proof. reflexivity. Qed.

(** C6. transaction_digest depends on the core transaction fields only:
    two signed transactions with the same messages, ref_block_num,
    ref_block_prefix and expiration have the same digest whatever their
    signatures, and so does either of them after a signature is appended
    or after its signatures are removed. *)
Theorem transaction_digest_core_fields_only (s1 s2 : SignedTransaction) :
  messages s1 = messages s2 ->
  ref_block_num s1 = ref_block_num s2 ->
  ref_block_prefix s1 = ref_block_prefix s2 ->
  expiration s1 = expiration s2 ->
  transaction_digest s1 = transaction_digest s2
  /\ (forall sig : Signature,
        transaction_digest (push_signature sig s1) = transaction_digest s2)
  /\ transaction_digest
       (Build_SignedTransaction (set_signatures [] s1)) = transaction_digest s2.
Proof.
  intros Hm Hn Hp He.
  pose proof (Transaction_eq s1 s2 Hm Hn Hp He) as Heq.
  split; [|split].
  - rewrite Heq. reflexivity.
  - intros sig. cbn. rewrite Heq. reflexivity.
  - cbn. rewrite Heq. reflexivity.
Qed.

(** C8. The two overloads of SignedTransaction::sign. Both return the
    signature of the key over sig_digest(chain_id). The first leaves a
    transaction whose signature list is the old one with that signature
    appended, and whose core fields are unchanged; the second, on a const
    transaction, leaves the transaction as it was. *)
Theorem SignedTransaction_sign_overloads (key : private_key_type)
    (chain_id : chain_id_type) (s : SignedTransaction) :
  let sig := sign_compact key (SignedTransaction_sig_digest s chain_id) in
  fst (SignedTransaction_sign key chain_id s) = sig
  /\ signatures (snd (SignedTransaction_sign key chain_id s))
     = signatures s ++ [sig]
  /\ list.last (signatures (snd (SignedTransaction_sign key chain_id s))) = Some sig
  /\ types_SignedTransaction_base (snd (SignedTransaction_sign key chain_id s))
     = types_SignedTransaction_base s
  /\ SignedTransaction_sign_const key chain_id s = (sig, s).
Proof.
  cbn. split; [reflexivity|]. split; [reflexivity|].
  split; [apply last_snoc|]. split; reflexivity.
Qed.

End Digests.

(** ** The canonical binary encoding *)
Section Encoding.
Context `{Externals}.

Lemma pack_reflected_app {T : Type} (r1 r2 : reflector T) (v : T) :
  pack_reflected (r1 ++ r2) v = pack_reflected r1 v ++ pack_reflected r2 v.
Proof. unfold pack_reflected. rewrite map_app, concat_app. reflexivity. Qed.

Lemma pack_reflected_inherit {B T : Type} (get : T -> B) (set : B -> T -> T)
    (r : reflector B) (v : T) :
  pack_reflected (inherit get set r) v = pack_reflected r (get v).
Proof.
  unfold pack_reflected, inherit. rewrite map_map. reflexivity.
Qed.

Lemma FC_REFLECT_DERIVED_one_base {T : Type} (base : reflector T)
    (members : list (member T)) :
  FC_REFLECT_DERIVED [base] members = base ++ members.
Proof. unfold FC_REFLECT_DERIVED. cbn [concat]. rewrite app_nil_r. reflexivity. Qed.

Lemma reflected_names_inherit {B T : Type} (get : T -> B) (set : B -> T -> T)
    (r : reflector B) :
  reflected_names (inherit get set r) = reflected_names r.
Proof. unfold reflected_names, inherit. rewrite map_map. reflexivity. Qed.

(** The declaration of GeneratedTransaction names the member id and no
    base class. *)
Lemma reflected_names_GeneratedTransaction :
  reflected_names reflect_GeneratedTransaction = ["id"].
Proof. reflexivity. Qed.

(** So the encoding of a GeneratedTransaction is the encoding of its id. *)
Lemma pack_GeneratedTransaction (g : GeneratedTransaction) :
  pack g = pack (GeneratedTransaction_id g).
Proof. cbn. unfold pack_reflected. cbn. apply app_nil_r. Qed.

Lemma pack_GeneratedTransaction_any_body (i : generated_transaction_id_type)
    (body1 body2 : Transaction) :
  pack (GeneratedTransaction_new i body1) = pack (GeneratedTransaction_new i body2).
Proof. rewrite !pack_GeneratedTransaction. reflexivity. Qed.

(** The declarations that name eos::types::Transaction as a base do write
    the base fields first. *)
Lemma reflected_names_InlineTransaction (o : Raw MessageOutput) :
  reflected_names (reflect_InlineTransaction o)
  = reflected_names reflect_Transaction ++ ["output"].
Proof. reflexivity. Qed.

Lemma pack_InlineTransaction (i : InlineTransaction) :
  pack i = pack (InlineTransaction_base i) ++ pack (InlineTransaction_output i).
Proof.
  change (pack i)
    with (pack_reflected (reflect_InlineTransaction MessageOutput_raw) i).
  unfold reflect_InlineTransaction.
  rewrite FC_REFLECT_DERIVED_one_base, pack_reflected_app.
  rewrite pack_reflected_inherit. f_equal.
  unfold pack_reflected. cbn. apply app_nil_r.
Qed.

Lemma pack_PendingInlineTransaction (p : PendingInlineTransaction) :
  pack p = pack (PendingInlineTransaction_super p).
Proof.
  change (pack p) with (pack_reflected reflect_PendingInlineTransaction p).
  unfold reflect_PendingInlineTransaction.
  rewrite FC_REFLECT_DERIVED_one_base, pack_reflected_app.
  rewrite pack_reflected_inherit. apply app_nil_r.
Qed.

(** Two values with one encoding cannot both be read back. *)
Lemma same_encoding_no_round_trip {A : Type} (enc : A -> bytes) (x y : A) :
  enc x = enc y -> x <> y ->
  forall dec : bytes -> option (A * bytes),
    ~ (dec (enc x) = Some (x, []) /\ dec (enc y) = Some (y, [])).
Proof.
  intros Henc Hne dec [Hx Hy]. rewrite Henc in Hx. congruence.
Qed.

End Encoding.

(** C1, on the code. For the generated transaction with id 7 carrying the
    two-message sample transaction, the reflected members are id alone and
    the encoding is the four bytes of the id: the base transaction fields
    (messages, ref_block_num, ref_block_prefix, expiration) are not written
    before it. *)
Theorem GeneratedTransaction_encoding_is_id_alone :
  reflected_names (@reflect_GeneratedTransaction Sample.externals) = ["id"]
  /\ pack Sample.generated = ["007"; "000"; "000"; "000"]%byte
  /\ pack Sample.generated = pack (GeneratedTransaction_id Sample.generated)
  /\ pack Sample.generated
     <> pack (GeneratedTransaction_base Sample.generated)
        ++ pack (GeneratedTransaction_id Sample.generated)
  /\ reflected_names (@reflect_GeneratedTransaction Sample.externals)
     <> reflected_names (@reflect_Transaction Sample.externals) ++ ["id"].
Proof.
  split; [reflexivity|]. split; [reflexivity|]. split; [reflexivity|].
  split.
  - vm_compute. intros Heq. discriminate Heq.
  - vm_compute. intros Heq. discriminate Heq.
Qed.

(** C3, on the code. Encoding the same generated transaction and decoding the
    result gives back the id with a default-constructed body: the messages,
    ref_block_num, ref_block_prefix and expiration of the original are
    lost. The two have one encoding, so no decoder at all returns each of
    them from its encoding. *)
Theorem GeneratedTransaction_round_trip_loses_body :
  unpack (pack Sample.generated) = Some (Sample.generated_no_body, [])
  /\ Sample.generated_no_body <> Sample.generated
  /\ messages Sample.generated_no_body <> messages Sample.generated
  /\ ref_block_num Sample.generated_no_body <> ref_block_num Sample.generated
  /\ pack Sample.generated = pack Sample.generated_no_body
  /\ forall dec : bytes -> option (GeneratedTransaction * bytes),
       ~ (dec (pack Sample.generated) = Some (Sample.generated, [])
          /\ dec (pack Sample.generated_no_body)
             = Some (Sample.generated_no_body, [])).
Proof.
  assert (Hne : Sample.generated <> Sample.generated_no_body)
    by (intros Heq; discriminate Heq).
  split; [reflexivity|].
  split; [intros Heq; discriminate Heq|].
  split; [intros Heq; discriminate Heq|].
  split; [vm_compute; intros Heq; discriminate Heq|].
  split; [apply pack_GeneratedTransaction_any_body|].
  apply same_encoding_no_round_trip; [|exact Hne].
  apply pack_GeneratedTransaction_any_body.
Qed.

(** ** Reading back what was written: the packing overloads of fc *)
Section RawPrimitives.

Lemma Z_of_byte_of_Z (z : Z) : Z_of_byte (byte_of_Z z) = z `mod` 256.
Proof.
  unfold Z_of_byte, byte_of_Z.
  assert (Hrange : 0 <= z `mod` 256 < 256) by (apply Z.mod_pos_bound; lia).
  destruct (Byte.of_N (Z.to_N (z `mod` 256))) as [b|] eqn:Hb.
  - cbn. apply Byte.to_of_N in Hb. rewrite Hb. apply Z2N.id. lia.
  - apply Byte.of_N_None_iff in Hb. lia.
Qed.

Lemma Z_of_byte_range (b : byte) : 0 <= Z_of_byte b < 256.
Proof.
  unfold Z_of_byte. pose proof (Byte.to_N_bounded b). lia.
Qed.

Lemma unpack_le_pack_le (w : nat) : forall (z : Z) (rest : bytes),
  0 <= z < 256 ^ Z.of_nat w ->
  unpack_le w (pack_le w z ++ rest) = Some (z, rest).
Proof.
  induction w as [|w IH]; intros z rest Hz.
  - cbn in *. replace z with 0 by lia. reflexivity.
  - rewrite Nat2Z.inj_succ, Z.pow_succ_r in Hz by lia.
    cbn [pack_le unpack_le app].
    rewrite IH.
    + rewrite Z_of_byte_of_Z. f_equal. f_equal.
      pose proof (Z.div_mod z 256). lia.
    + split; [apply Z.div_pos; lia|].
      apply Z.div_lt_upper_bound; lia.
Qed.

Lemma unpack_pack_unsigned_int_aux (fuel : nat) : forall (v : Z) (rest : bytes),
  0 <= v < 128 ^ Z.of_nat (S fuel) ->
  unpack_unsigned_int (pack_unsigned_int_aux (S fuel) v ++ rest) = Some (v, rest).
Proof.
  induction fuel as [|fuel IH]; intros v rest Hv.
  - change (128 ^ Z.of_nat 1) with 128 in Hv.
    cbn [pack_unsigned_int_aux].
    rewrite Z.div_small by lia. cbn [Z.eqb app unpack_unsigned_int].
    rewrite Z_of_byte_of_Z, (Z.mod_small v 128), (Z.mod_small v 256) by lia.
    destruct (Z.ltb_spec v 128); [reflexivity|lia].
  - rewrite Nat2Z.inj_succ, Z.pow_succ_r in Hv by lia.
    remember (S fuel) as n eqn:Hn.
    cbn [pack_unsigned_int_aux].
    pose proof (Z.mod_pos_bound v 128 ltac:(lia)) as Hm.
    pose proof (Z.div_mod v 128 ltac:(lia)) as Hd.
    destruct (Z.eqb_spec (v / 128) 0) as [Hq|Hq].
    + cbn [app unpack_unsigned_int].
      rewrite Z_of_byte_of_Z, (Z.mod_small (v `mod` 128) 256) by lia.
      destruct (Z.ltb_spec (v `mod` 128) 128); [|lia].
      f_equal. f_equal. lia.
    + cbn [app unpack_unsigned_int].
      rewrite Z_of_byte_of_Z, (Z.mod_small (v `mod` 128 + 128) 256) by lia.
      destruct (Z.ltb_spec (v `mod` 128 + 128) 128); [lia|].
      rewrite IH.
      * f_equal. f_equal. lia.
      * split; [apply Z.div_pos; lia|].
        apply Z.div_lt_upper_bound; lia.
Qed.

Lemma unpack_pack_unsigned_int (v : Z) (rest : bytes) :
  0 <= v < 2 ^ 32 ->
  unpack_unsigned_int (pack_unsigned_int v ++ rest) = Some (v, rest).
Proof.
  intros Hv. unfold pack_unsigned_int. rewrite Z.mod_small by lia.
  apply unpack_pack_unsigned_int_aux.
  change (128 ^ Z.of_nat 5) with 34359738368.
  change (2 ^ 32) with 4294967296 in Hv. lia.
Qed.

Lemma unpack_pack_UInt16 (z : UInt16) (rest : bytes) :
  0 <= z < 2 ^ 16 ->
  @unpack _ UInt16_raw (@pack _ UInt16_raw z ++ rest) = Some (z, rest).
Proof. intros Hz. apply (unpack_le_pack_le 2). exact Hz. Qed.

Lemma unpack_pack_UInt32 (z : UInt32) (rest : bytes) :
  0 <= z < 2 ^ 32 ->
  @unpack _ UInt32_raw (@pack _ UInt32_raw z ++ rest) = Some (z, rest).
Proof. intros Hz. apply (unpack_le_pack_le 4). exact Hz. Qed.

Definition UInt16_ok : @RawOk UInt16 UInt16_raw :=
  {| raw_valid := fun z => 0 <= z < 2 ^ 16;
     unpack_pack := unpack_pack_UInt16 |}.

Definition UInt32_ok : @RawOk UInt32 UInt32_raw :=
  {| raw_valid := fun z => 0 <= z < 2 ^ 32;
     unpack_pack := unpack_pack_UInt32 |}.

Section VectorOk.
Context {A : Type} `{RawOk A}.

Lemma unpack_pack_elements (l : list A) : forall rest : bytes,
  Forall raw_valid l ->
  unpack_elements (length l) (pack_elements l ++ rest) = Some (l, rest).
Proof.
  induction l as [|x l IH]; intros rest Hl.
  - reflexivity.
  - inversion Hl as [|? ? Hx Hl']; subst.
    cbn [length pack_elements unpack_elements].
    rewrite <- app_assoc, unpack_pack by assumption.
    rewrite IH by assumption. reflexivity.
Qed.

Lemma unpack_pack_vector (l : list A) (rest : bytes) :
  vector_valid l -> unpack (pack l ++ rest) = Some (l, rest).
Proof.
  intros [Hl Hlen].
  change (unpack_vector (pack_vector l ++ rest) = Some (l, rest)).
  unfold unpack_vector, pack_vector.
  rewrite <- app_assoc, unpack_pack_unsigned_int by lia.
  rewrite Nat2Z.id. apply unpack_pack_elements. assumption.
Qed.

#[global] Instance vector_ok : RawOk (list A) :=
  {| raw_valid := vector_valid; unpack_pack := unpack_pack_vector |}.
End VectorOk.

(** Reading a lawful field writes the packed value into the member. *)
Lemma member_unpack_field {T F : Type} `{RawOk F} (name : string)
    (get : T -> F) (set : F -> T -> T) (x v : T) (rest : bytes) :
  raw_valid (get x) ->
  member_unpack (field name get set) v
    (member_pack (field name get set) x ++ rest)
  = Some (set (get x) v, rest).
Proof. intros Hx. cbn. rewrite unpack_pack by assumption. reflexivity. Qed.

Lemma unpack_reflected_app {T : Type} (r1 r2 : reflector T) (v : T) (bs : bytes) :
  unpack_reflected (r1 ++ r2) v bs
  = match unpack_reflected r1 v bs with
    | Some (v', bs') => unpack_reflected r2 v' bs'
    | None => None
    end.
Proof.
  revert v bs. induction r1 as [|m r1 IH]; intros v bs; cbn.
  - reflexivity.
  - destruct (member_unpack m v bs) as [[v' bs']|]; [apply IH|reflexivity].
Qed.

(** Reading the members of a base into a derived value is reading the base
    and storing it, when the base subobject behaves as one. *)
Lemma unpack_reflected_inherit {B T : Type} (get : T -> B) (set : B -> T -> T)
    (r : reflector B) :
  (forall b v, get (set b v) = b) ->
  (forall b b' v, set b' (set b v) = set b' v) ->
  (forall v, set (get v) v = v) ->
  forall (v : T) (bs : bytes),
    unpack_reflected (inherit get set r) v bs
    = match unpack_reflected r (get v) bs with
      | Some (b, rest) => Some (set b v, rest)
      | None => None
      end.
Proof.
  intros Hgs Hss Hsg. induction r as [|m r IH]; intros v bs; cbn.
  - rewrite Hsg. reflexivity.
  - destruct (member_unpack m (get v) bs) as [[b bs']|]; [|reflexivity].
    change (unpack_reflected (inherit get set r) (set b v) bs'
            = match unpack_reflected r b bs' with
              | Some (b0, rest) => Some (set b0 v, rest)
              | None => None
              end).
    rewrite IH, Hgs.
    destruct (unpack_reflected r b bs') as [[b0 rest]|]; [|reflexivity].
    rewrite Hss. reflexivity.
Qed.

End RawPrimitives.

(** ** Which structures read back *)
Section StructRoundTrip.
Context `{Externals}.
Context {Message_ok : RawOk Message} {Time_ok : RawOk Time}
  {Signature_ok : RawOk Signature}.

Lemma unpack_pack_reflected_Transaction (t v : Transaction) (rest : bytes) :
  Transaction_valid t ->
  unpack_reflected reflect_Transaction v
    (pack_reflected reflect_Transaction t ++ rest) = Some (t, rest).
Proof.
  intros (Hm & Hn & Hp & He).
  unfold reflect_Transaction, FC_REFLECT, FC_REFLECT_DERIVED.
  cbn [concat app]. unfold pack_reflected. cbn [map concat unpack_reflected].
  rewrite <- !app_assoc.
  rewrite (member_unpack_field (H0 := vector_ok)) by exact Hm.
  rewrite (member_unpack_field (H0 := UInt16_ok)) by exact Hn.
  rewrite (member_unpack_field (H0 := UInt32_ok)) by exact Hp.
  change ([] ++ rest) with rest.
  rewrite (member_unpack_field (H0 := Time_ok)) by exact He.
  destruct t; reflexivity.
Qed.

Lemma unpack_pack_reflected_types_SignedTransaction
    (s v : types_SignedTransaction) (rest : bytes) :
  types_SignedTransaction_valid s ->
  unpack_reflected reflect_types_SignedTransaction v
    (pack_reflected reflect_types_SignedTransaction s ++ rest) = Some (s, rest).
Proof.
  intros [Ht Hs]. unfold reflect_types_SignedTransaction.
  rewrite FC_REFLECT_DERIVED_one_base, pack_reflected_app, unpack_reflected_app.
  rewrite pack_reflected_inherit, <- app_assoc.
  rewrite unpack_reflected_inherit; try reflexivity.
  - rewrite unpack_pack_reflected_Transaction by exact Ht.
    unfold pack_reflected. cbn [map concat unpack_reflected].
    rewrite <- app_assoc. change ([] ++ rest) with rest.
    rewrite (member_unpack_field (H0 := vector_ok)) by exact Hs.
    destruct s; reflexivity.
  - intros [b sigs]. reflexivity.
Qed.

(** SignedTransaction reads back: its declaration names its base. *)
Lemma SignedTransaction_round_trip (s : SignedTransaction) (rest : bytes) :
  types_SignedTransaction_valid s ->
  unpack (pack s ++ rest) = Some (s, rest).
Proof.
  intros Hs.
  change (unpack_reflected reflect_SignedTransaction inhabitant
            (pack_reflected reflect_SignedTransaction s ++ rest) = Some (s, rest)).
  unfold reflect_SignedTransaction.
  rewrite FC_REFLECT_DERIVED_one_base, !app_nil_r, pack_reflected_inherit.
  rewrite unpack_reflected_inherit; try reflexivity.
  - rewrite unpack_pack_reflected_types_SignedTransaction by exact Hs.
    destruct s; reflexivity.
  - intros [b]. reflexivity.
Qed.

(** PendingInlineTransaction reads back: its declaration names its base. *)
Lemma PendingInlineTransaction_round_trip (p : PendingInlineTransaction)
    (rest : bytes) :
  Transaction_valid p ->
  unpack (pack p ++ rest) = Some (p, rest).
Proof.
  intros Hp.
  change (unpack_reflected reflect_PendingInlineTransaction inhabitant
            (pack_reflected reflect_PendingInlineTransaction p ++ rest)
          = Some (p, rest)).
  unfold reflect_PendingInlineTransaction.
  rewrite FC_REFLECT_DERIVED_one_base, !app_nil_r, pack_reflected_inherit.
  rewrite unpack_reflected_inherit; try reflexivity.
  - rewrite unpack_pack_reflected_Transaction by exact Hp.
    destruct p; reflexivity.
  - intros [b]. reflexivity.
Qed.

(** GeneratedTransaction reads back as its id over a default-constructed
    body. *)
Lemma GeneratedTransaction_unpack_pack {id_ok : RawOk generated_transaction_id_type}
    (g : GeneratedTransaction) (rest : bytes) :
  raw_valid (GeneratedTransaction_id g) ->
  unpack (pack g ++ rest)
  = Some (GeneratedTransaction_new (GeneratedTransaction_id g) inhabitant, rest).
Proof.
  intros Hg.
  change (unpack_reflected reflect_GeneratedTransaction inhabitant
            (pack_reflected reflect_GeneratedTransaction g ++ rest)
          = Some (GeneratedTransaction_new (GeneratedTransaction_id g) inhabitant, rest)).
  unfold reflect_GeneratedTransaction, FC_REFLECT, FC_REFLECT_DERIVED.
  cbn [concat app]. unfold pack_reflected. cbn [map concat unpack_reflected].
  rewrite <- app_assoc. change ([] ++ rest) with rest.
  rewrite (member_unpack_field (H0 := id_ok)) by exact Hg.
  reflexivity.
Qed.

(** The body of a deferred transaction is in no encoding that holds it. *)
Lemma MessageOutput_deferred_body_not_encoded (n : list NotifyOutput)
    (i : InlineTransaction) (d : list GeneratedTransaction)
    (id : generated_transaction_id_type) (body1 body2 : Transaction) :
  pack (Build_MessageOutput n i (GeneratedTransaction_new id body1 :: d))
  = pack (Build_MessageOutput n i (GeneratedTransaction_new id body2 :: d)).
Proof. reflexivity. Qed.

Lemma NotifyOutput_deferred_body_not_encoded (a : AccountName)
    (m1 m2 : MessageOutput) :
  pack m1 = pack m2 -> pack (Build_NotifyOutput a m1) = pack (Build_NotifyOutput a m2).
Proof.
  intros Hm.
  change (pack a ++ pack m1 ++ [] = pack a ++ pack m2 ++ []).
  rewrite Hm. reflexivity.
Qed.

Lemma InlineTransaction_deferred_body_not_encoded (b : Transaction)
    (m1 m2 : MessageOutput) (o : list MessageOutput) :
  pack m1 = pack m2 ->
  pack (Build_InlineTransaction b (m1 :: o)) = pack (Build_InlineTransaction b (m2 :: o)).
Proof.
  intros Hm. rewrite !pack_InlineTransaction.
  change (InlineTransaction_output (Build_InlineTransaction b (m1 :: o))) with (m1 :: o).
  change (InlineTransaction_output (Build_InlineTransaction b (m2 :: o))) with (m2 :: o).
  change (pack (m1 :: o)) with (pack_unsigned_int (Z.of_nat (length (m1 :: o))) ++ pack m1 ++ pack_elements o).
  change (pack (m2 :: o)) with (pack_unsigned_int (Z.of_nat (length (m2 :: o))) ++ pack m2 ++ pack_elements o).
  rewrite Hm. reflexivity.
Qed.

Lemma ProcessedTransaction_deferred_body_not_encoded (s : SignedTransaction)
    (m1 m2 : MessageOutput) (o : list MessageOutput) :
  pack m1 = pack m2 ->
  pack {| ProcessedTransaction_super := s; ProcessedTransaction_output := m1 :: o |}
  = pack {| ProcessedTransaction_super := s; ProcessedTransaction_output := m2 :: o |}.
Proof.
  intros Hm.
  change (pack_reflected (reflect_ProcessedTransaction MessageOutput_raw)
            {| ProcessedTransaction_super := s; ProcessedTransaction_output := m1 :: o |}
          = pack_reflected (reflect_ProcessedTransaction MessageOutput_raw)
            {| ProcessedTransaction_super := s; ProcessedTransaction_output := m2 :: o |}).
  unfold reflect_ProcessedTransaction.
  rewrite FC_REFLECT_DERIVED_one_base, !pack_reflected_app, !pack_reflected_inherit.
  f_equal.
  change ((pack_unsigned_int (Z.of_nat (length (m1 :: o)))
           ++ pack m1 ++ pack_elements o) ++ []
          = (pack_unsigned_int (Z.of_nat (length (m2 :: o)))
             ++ pack m2 ++ pack_elements o) ++ []).
  rewrite Hm. reflexivity.
Qed.

Lemma ProcessedGeneratedTransaction_deferred_body_not_encoded
    (id : generated_transaction_id_type) (m1 m2 : MessageOutput)
    (o : list MessageOutput) :
  pack m1 = pack m2 ->
  pack {| ProcessedGeneratedTransaction_id := id;
          ProcessedGeneratedTransaction_output := m1 :: o |}
  = pack {| ProcessedGeneratedTransaction_id := id;
            ProcessedGeneratedTransaction_output := m2 :: o |}.
Proof.
  intros Hm.
  change (pack id ++ (pack_unsigned_int (Z.of_nat (length (m1 :: o)))
                      ++ pack m1 ++ pack_elements o) ++ []
          = pack id ++ (pack_unsigned_int (Z.of_nat (length (m2 :: o)))
                      ++ pack m2 ++ pack_elements o) ++ []).
  rewrite Hm. reflexivity.
Qed.

End StructRoundTrip.

(** ** The sample instance: its overloads read back, its values are valid *)
Module SampleOk.
Import Sample.

Lemma unpack_pack_byte (b : byte) (rest : bytes) :
  True -> unpack (pack b ++ rest) = Some (b, rest).
Proof. reflexivity. Qed.

#[global] Instance byte_ok : RawOk byte :=
  {| raw_valid := fun _ => True; unpack_pack := unpack_pack_byte |}.

Lemma unpack_pack_uint64 (z : uint64) (rest : bytes) :
  0 <= z < 2 ^ 64 ->
  @unpack _ uint64_raw (@pack _ uint64_raw z ++ rest) = Some (z, rest).
Proof. intros Hz. apply (unpack_le_pack_le 8). exact Hz. Qed.

Definition uint64_ok : @RawOk uint64 uint64_raw :=
  {| raw_valid := fun z => 0 <= z < 2 ^ 64; unpack_pack := unpack_pack_uint64 |}.

Definition message_valid (m : message) : Prop :=
  0 <= code m < 2 ^ 64 /\ 0 <= Message_type m < 2 ^ 64
  /\ vector_valid (Message_data m).

Lemma unpack_pack_message (m : message) (rest : bytes) :
  message_valid m -> unpack (pack m ++ rest) = Some (m, rest).
Proof.
  intros (Hc & Ht & Hd).
  change (unpack_reflected message_reflector inhabitant
            (pack_reflected message_reflector m ++ rest) = Some (m, rest)).
  unfold message_reflector, FC_REFLECT, FC_REFLECT_DERIVED.
  cbn [concat app]. unfold pack_reflected. cbn [map concat unpack_reflected].
  rewrite <- !app_assoc. change ([] ++ rest) with rest.
  rewrite (member_unpack_field (H0 := uint64_ok)) by exact Hc.
  rewrite (member_unpack_field (H0 := uint64_ok)) by exact Ht.
  rewrite (member_unpack_field (H0 := @vector_ok byte byte_raw byte_ok)) by exact Hd.
  destruct m; reflexivity.
Qed.

#[global] Instance message_ok : RawOk Message :=
  {| raw_valid := message_valid; unpack_pack := unpack_pack_message |}.

#[global] Instance time_ok : RawOk Time := UInt32_ok.
#[global] Instance signature_ok : RawOk Signature := vector_ok.
#[global] Instance generated_transaction_id_ok
  : RawOk generated_transaction_id_type := UInt32_ok.

Lemma bytes_valid (bs : bytes) :
  Z.of_nat (length bs) < 2 ^ 32 -> vector_valid bs.
Proof.
  intros Hlen. split; [|exact Hlen].
  apply Forall_forall. intros b _. exact I.
Qed.

Lemma trx_valid : Transaction_valid trx.
Proof.
  split; [|cbn; lia].
  split; [|cbn; lia].
  repeat apply Forall_cons; try apply Forall_nil;
    (split; [cbn; lia|split; [cbn; lia|apply bytes_valid; cbn; lia]]).
Qed.

Lemma signed_valid : types_SignedTransaction_valid signed.
Proof.
  split; [exact trx_valid|].
  split; [|cbn; lia].
  repeat apply Forall_cons; try apply Forall_nil.
  apply bytes_valid. cbn. lia.
Qed.

Example signed_round_trip : unpack (pack signed) = Some (signed, []).
Proof.
  rewrite <- (app_nil_r (pack signed)).
  apply SignedTransaction_round_trip. exact signed_valid.
Qed.

Example pending_round_trip : unpack (pack pending) = Some (pending, []).
Proof.
  rewrite <- (app_nil_r (pack pending)).
  apply PendingInlineTransaction_round_trip. exact trx_valid.
Qed.

End SampleOk.

(** The body of a deferred transaction is lost in each of the six structures
    that hold a GeneratedTransaction: two values that differ in it have one
    encoding. *)
Lemma deferred_body_lost_in_every_container :
  let m1 := Sample.deferring Sample.generated in
  let m2 := Sample.deferring Sample.generated_no_body in
  (Sample.generated <> Sample.generated_no_body
   /\ pack Sample.generated = pack Sample.generated_no_body)
  /\ (m1 <> m2 /\ pack m1 = pack m2)
  /\ (Build_NotifyOutput 5 m1 <> Build_NotifyOutput 5 m2
      /\ pack (Build_NotifyOutput 5 m1) = pack (Build_NotifyOutput 5 m2))
  /\ (Build_InlineTransaction Sample.trx [m1]
        <> Build_InlineTransaction Sample.trx [m2]
      /\ pack (Build_InlineTransaction Sample.trx [m1])
         = pack (Build_InlineTransaction Sample.trx [m2]))
  /\ (Build_ProcessedTransaction Sample.signed [m1]
        <> Build_ProcessedTransaction Sample.signed [m2]
      /\ pack (Build_ProcessedTransaction Sample.signed [m1])
         = pack (Build_ProcessedTransaction Sample.signed [m2]))
  /\ (Build_ProcessedGeneratedTransaction 7 [m1]
        <> Build_ProcessedGeneratedTransaction 7 [m2]
      /\ pack (Build_ProcessedGeneratedTransaction 7 [m1])
         = pack (Build_ProcessedGeneratedTransaction 7 [m2])).
Proof.
  intros m1 m2.
  assert (Hm : pack m1 = pack m2)
    by apply MessageOutput_deferred_body_not_encoded.
  split; [split; [intros Heq; discriminate Heq|]|].
  { apply pack_GeneratedTransaction_any_body. }
  split; [split; [intros Heq; discriminate Heq|exact Hm]|].
  split; [split; [intros Heq; discriminate Heq|]|].
  { apply NotifyOutput_deferred_body_not_encoded, Hm. }
  split; [split; [intros Heq; discriminate Heq|]|].
  { apply InlineTransaction_deferred_body_not_encoded, Hm. }
  split; [split; [intros Heq; discriminate Heq|]|].
  { apply ProcessedTransaction_deferred_body_not_encoded, Hm. }
  split; [intros Heq; discriminate Heq|].
  apply ProcessedGeneratedTransaction_deferred_body_not_encoded, Hm.
Qed.

(** C2 at the sample block: after set_reference_block the sample transaction
    verifies against the block. *)
Lemma transaction_verify_reference_block_iff_witness :
  transaction_verify_reference_block
    (transaction_set_reference_block Sample.trx Sample.block) Sample.block = true.
Proof.
  exact (proj1 (proj2
    (transaction_verify_reference_block_iff Sample.trx Sample.block))).
Defined.

(** C4 as the spec has it fails on the two-message sample transaction at
    index 2: the index is not valid, and the call throws no
    index-out-of-range error. *)
Lemma transaction_set_message_throws_no_index_error :
  ~ (0 <= 2 < Z.of_nat (length (messages Sample.trx)))
  /\ @transaction_set_message Sample.externals UInt32 UInt32_raw
       Sample.trx 2 9 5 = Undefined
  /\ @transaction_set_message Sample.externals UInt32 UInt32_raw
       Sample.trx 2 9 5 <> Throws IndexOutOfRange.
Proof.
  split; [cbn; lia|]. split; [reflexivity|].
  intros Heq. discriminate Heq.
Qed.

(** C4 as the code has it, at index 1 (valid) and index 2 (not valid) of the
    sample transaction. *)
Lemma transaction_set_message_spec_witness :
  0 <= 1 < Z.of_nat (length (messages Sample.trx))
  /\ (exists (old : Message) (t' : Transaction) (m : Message),
        messages Sample.trx !! Z.to_nat 1 = Some old
        /\ @transaction_set_message Sample.externals UInt32 UInt32_raw
             Sample.trx 1 9 5 = Returns t'
        /\ messages t' !! Z.to_nat 1 = Some m
        /\ m = @Message_set Sample.externals UInt32 UInt32_raw 9 5 old
        /\ Message_type m = 9
        /\ Message_data m = @pack UInt32 UInt32_raw 5
        /\ Message_rest_of m = Message_rest_of old
        /\ (forall j : nat, j <> Z.to_nat 1 ->
              messages t' !! j = messages Sample.trx !! j)
        /\ length (messages t') = length (messages Sample.trx)
        /\ ref_block_num t' = ref_block_num Sample.trx
        /\ ref_block_prefix t' = ref_block_prefix Sample.trx
        /\ expiration t' = expiration Sample.trx)
  /\ ~ (0 <= 2 < Z.of_nat (length (messages Sample.trx)))
  /\ @transaction_set_message Sample.externals UInt32 UInt32_raw
       Sample.trx 2 9 5 = Undefined.
Proof.
  split; [cbn; lia|]. split.
  - apply (proj1 (@transaction_set_message_spec Sample.externals UInt32
                    UInt32_raw Sample.trx 1 9 5)).
    cbn. lia.
  - split; [cbn; lia|].
    apply (proj2 (@transaction_set_message_spec Sample.externals UInt32
                    UInt32_raw Sample.trx 2 9 5)).
    cbn. lia.
Defined.

(** C6 at two sample transactions that differ in their signatures only. *)
Lemma transaction_digest_core_fields_only_witness :
  messages Sample.signed = messages Sample.signed_twice
  /\ ref_block_num Sample.signed = ref_block_num Sample.signed_twice
  /\ ref_block_prefix Sample.signed = ref_block_prefix Sample.signed_twice
  /\ expiration Sample.signed = expiration Sample.signed_twice
  /\ signatures Sample.signed <> signatures Sample.signed_twice
  /\ transaction_digest Sample.signed = transaction_digest Sample.signed_twice.
Proof.
  repeat (split; [reflexivity|]).
  split; [intros Heq; discriminate Heq|].
  apply (transaction_digest_core_fields_only Sample.signed Sample.signed_twice);
    reflexivity.
Defined.

(** ** Calls on the message container in sequence *)
Section MessageSequences.
Context `{Externals}.

Lemma vector_at_insert_eq {A : Type} (v : list A) (index : Z) (x : A) :
  0 <= index < Z.of_nat (length v) ->
  vector_at (<[Z.to_nat index := x]> v) index = Some x.
Proof.
  intros [Hlo Hhi]. unfold vector_at.
  destruct (Z.leb_spec 0 index); [|lia].
  apply list_lookup_insert_eq. lia.
Qed.

Lemma vector_at_insert_ne {A : Type} (v : list A) (i j : Z) (x : A) :
  0 <= i -> i <> j -> vector_at (<[Z.to_nat i := x]> v) j = vector_at v j.
Proof.
  intros Hi Hne. unfold vector_at.
  destruct (Z.leb_spec 0 j) as [Hj|Hj]; [|reflexivity].
  apply list_lookup_insert_ne. lia.
Qed.

Lemma vector_at_valid {A : Type} (v : list A) (index : Z) (x : A) :
  vector_at v index = Some x -> 0 <= index < Z.of_nat (length v).
Proof.
  unfold vector_at. destruct (Z.leb_spec 0 index) as [Hlo|Hlo]; [|discriminate].
  intros Hx. apply lookup_lt_Some in Hx. lia.
Qed.

(** What transaction_set_message returns, when it returns. *)
Lemma transaction_set_message_Returns {T : Type} `{Raw T} (t : Transaction)
    (index : Z) (type : FuncName) (value : T) (old : Message) :
  vector_at (messages t) index = Some old ->
  transaction_set_message t index type value
  = Returns (set_messages
               (<[Z.to_nat index := Message_set type value old]> (messages t)) t).
Proof. intros Hat. unfold transaction_set_message. rewrite Hat. reflexivity. Qed.

Lemma transaction_set_message_Undefined {T : Type} `{Raw T} (t : Transaction)
    (index : Z) (type : FuncName) (value : T) :
  vector_at (messages t) index = None ->
  transaction_set_message t index type value = Undefined.
Proof. intros Hat. unfold transaction_set_message. rewrite Hat. reflexivity. Qed.

(** X1. Two calls of transaction_set_message at one valid index: the second
    call works on the message the first one left, so the message at the
    index ends as the old message after Message::set(type1, value1) and then
    Message::set(type2, value2); nothing else of the transaction changes. *)
Theorem transaction_set_message_twice {T1 T2 : Type} `{Raw T1} `{Raw T2}
    (t : Transaction) (index : Z) (type1 type2 : FuncName)
    (value1 : T1) (value2 : T2) :
  0 <= index < Z.of_nat (length (messages t)) ->
  exists old : Message,
    messages t !! Z.to_nat index = Some old
    /\ and_then (transaction_set_message t index type1 value1)
         (fun t1 => transaction_set_message t1 index type2 value2)
       = Returns (set_messages
                    (<[Z.to_nat index :=
                         Message_set type2 value2 (Message_set type1 value1 old)]>
                       (messages t)) t).
Proof.
  intros Hin.
  destruct (vector_at_Some (messages t) index Hin) as (old & Hat & Hlk).
  exists old. split; [exact Hlk|].
  rewrite (transaction_set_message_Returns t index type1 value1 old Hat).
  cbn [and_then].
  rewrite (transaction_set_message_Returns _ index type2 value2
             (Message_set type1 value1 old)).
  - cbn. rewrite list_insert_insert_eq. reflexivity.
  - cbn. apply vector_at_insert_eq. exact Hin.
Qed.

(** X2. Calls of transaction_set_message at two different indices can be
    made in either order: both orders return the same transaction, or both
    are undefined (when one of the indices is not valid). *)
Theorem transaction_set_message_commute {T1 T2 : Type} `{Raw T1} `{Raw T2}
    (t : Transaction) (i j : Z) (type1 type2 : FuncName)
    (value1 : T1) (value2 : T2) :
  i <> j ->
  and_then (transaction_set_message t i type1 value1)
    (fun t1 => transaction_set_message t1 j type2 value2)
  = and_then (transaction_set_message t j type2 value2)
      (fun t1 => transaction_set_message t1 i type1 value1).
Proof.
  intros Hne.
  destruct (vector_at (messages t) i) as [mi|] eqn:Hi;
    destruct (vector_at (messages t) j) as [mj|] eqn:Hj.
  - pose proof (vector_at_valid _ _ _ Hi) as Hvi.
    pose proof (vector_at_valid _ _ _ Hj) as Hvj.
    rewrite (transaction_set_message_Returns t i type1 value1 mi Hi).
    rewrite (transaction_set_message_Returns t j type2 value2 mj Hj).
    cbn [and_then].
    rewrite (transaction_set_message_Returns _ j type2 value2 mj);
      [|cbn; rewrite vector_at_insert_ne by lia; exact Hj].
    rewrite (transaction_set_message_Returns _ i type1 value1 mi);
      [|cbn; rewrite vector_at_insert_ne by lia; exact Hi].
    cbn. apply f_equal. apply (f_equal (fun l => set_messages l t)). apply list_insert_insert_ne. lia.
  - pose proof (vector_at_valid _ _ _ Hi) as Hvi.
    rewrite (transaction_set_message_Returns t i type1 value1 mi Hi).
    rewrite (transaction_set_message_Undefined t j type2 value2 Hj).
    cbn [and_then].
    apply transaction_set_message_Undefined.
    cbn. rewrite vector_at_insert_ne by lia. exact Hj.
  - pose proof (vector_at_valid _ _ _ Hj) as Hvj.
    rewrite (transaction_set_message_Undefined t i type1 value1 Hi).
    rewrite (transaction_set_message_Returns t j type2 value2 mj Hj).
    cbn [and_then]. symmetry.
    apply transaction_set_message_Undefined.
    cbn. rewrite vector_at_insert_ne by lia. exact Hi.
  - rewrite (transaction_set_message_Undefined t i type1 value1 Hi).
    rewrite (transaction_set_message_Undefined t j type2 value2 Hj).
    reflexivity.
Qed.

(** X3. transaction_message_as reads the message a preceding
    transaction_set_message left: at the index that was set it is the old
    message after Message::set(type, value), as T; at any other index it is
    what it was before the call. *)
Theorem transaction_message_as_after_set_message {T V : Type} `{Raw V}
    (Message_as : Message -> outcome T) (t : Transaction) (i j : Z)
    (type : FuncName) (value : V) :
  0 <= i < Z.of_nat (length (messages t)) ->
  exists old : Message,
    messages t !! Z.to_nat i = Some old
    /\ and_then (transaction_set_message t i type value)
         (fun t' => transaction_message_as Message_as t' j)
       = if decide (j = i) then Message_as (Message_set type value old)
         else transaction_message_as Message_as t j.
Proof.
  intros Hin.
  destruct (vector_at_Some (messages t) i Hin) as (old & Hat & Hlk).
  exists old. split; [exact Hlk|].
  rewrite (transaction_set_message_Returns t i type value old Hat).
  cbn [and_then]. unfold transaction_message_as. cbn [messages set_messages].
  destruct (decide (j = i)) as [->|Hne].
  - rewrite vector_at_insert_eq by exact Hin. reflexivity.
  - rewrite vector_at_insert_ne by lia. reflexivity.
Qed.

(** X4. transaction_emplace_message appends: the messages that were there
    keep their index, the new message is at the old size, the size grows by
    one and the other fields stay; so an index that was valid stays valid,
    and the old size becomes a valid index. *)
Theorem transaction_emplace_message_appends (t : Transaction) (m : Message) :
  let t' := transaction_emplace_message t m in
  (forall index : Z, 0 <= index < Z.of_nat (length (messages t)) ->
     vector_at (messages t') index = vector_at (messages t) index)
  /\ vector_at (messages t') (Z.of_nat (length (messages t))) = Some m
  /\ vector_at (messages t) (Z.of_nat (length (messages t))) = None
  /\ length (messages t') = S (length (messages t))
  /\ ref_block_num t' = ref_block_num t
  /\ ref_block_prefix t' = ref_block_prefix t
  /\ expiration t' = expiration t.
Proof.
  cbn. split; [|split; [|split; [|split; [|auto]]]].
  - intros index [Hlo Hhi]. unfold vector_at.
    destruct (Z.leb_spec 0 index); [|lia].
    apply lookup_app_l. lia.
  - unfold vector_at.
    destruct (Z.leb_spec 0 (Z.of_nat (length (messages t)))); [|lia].
    rewrite Nat2Z.id, lookup_app_r by lia.
    rewrite Nat.sub_diag. reflexivity.
  - apply vector_at_None. lia.
  - rewrite length_app. cbn. lia.
Qed.

(** X5. After transaction_clear, and after SignedTransaction::clear, no
    index is valid: transaction_set_message and transaction_message_as are
    undefined at every index, until a message is emplaced, which is then at
    index 0. *)
Theorem no_valid_index_after_clear {T V : Type} `{Raw V}
    (Message_as : Message -> outcome T) (t : Transaction)
    (s : SignedTransaction) (index : Z) (type : FuncName) (value : V)
    (m : Message) :
  transaction_set_message (transaction_clear t) index type value = Undefined
  /\ transaction_message_as Message_as (transaction_clear t) index = Undefined
  /\ transaction_set_message (SignedTransaction_clear s) index type value
     = Undefined
  /\ transaction_message_as Message_as (SignedTransaction_clear s) index
     = Undefined
  /\ transaction_message_as Message_as
       (transaction_emplace_message (transaction_clear t) m) 0
     = Message_as m.
Proof.
  assert (Hnone : forall A (i : Z), vector_at (@nil A) i = None).
  { intros A i. unfold vector_at. destruct (0 <=? i); reflexivity. }
  unfold transaction_set_message, transaction_message_as. cbn.
  rewrite !Hnone. repeat split.
Qed.
End MessageSequences.

(** ** Reading back an output tree *)
Section OutputTreeReadsBack.
Context `{Externals}.
Context {Message_ok : RawOk Message} {Time_ok : RawOk Time}
  {Signature_ok : RawOk Signature} {AccountName_ok : RawOk AccountName}
  {id_ok : RawOk generated_transaction_id_type}.

Lemma unpack_elements_map {A : Type} (R : Raw A) (f : A -> A) (l : list A) :
  forall rest : bytes,
  Forall (fun x => forall rest' : bytes,
            @unpack _ R (@pack _ R x ++ rest') = Some (f x, rest')) l ->
  @unpack_elements _ R (length l) (@pack_elements _ R l ++ rest)
  = Some (map f l, rest).
Proof.
  induction l as [|x l IH]; intros rest Hl.
  - reflexivity.
  - inversion Hl as [|? ? Hx Hl']; subst.
    cbn [length pack_elements unpack_elements map].
    rewrite <- app_assoc, Hx, IH by exact Hl'. reflexivity.
Qed.

Lemma unpack_vector_map {A : Type} (R : Raw A) (f : A -> A) (l : list A)
    (rest : bytes) :
  Forall (fun x => forall rest' : bytes,
            @unpack _ R (@pack _ R x ++ rest') = Some (f x, rest')) l ->
  Z.of_nat (length l) < 2 ^ 32 ->
  @unpack _ (@vector_raw _ R) (@pack _ (@vector_raw _ R) l ++ rest)
  = Some (map f l, rest).
Proof.
  intros Hl Hlen.
  change (@unpack_vector _ R (@pack_vector _ R l ++ rest) = Some (map f l, rest)).
  unfold unpack_vector, pack_vector.
  rewrite <- app_assoc, unpack_pack_unsigned_int by lia.
  rewrite Nat2Z.id. apply unpack_elements_map. exact Hl.
Qed.

Lemma member_unpack_field_as {T F : Type} (R : Raw F) (name : string)
    (get : T -> F) (set : F -> T -> T) (x v : T) (y : F) (rest : bytes) :
  @unpack _ R (@pack _ R (get x) ++ rest) = Some (y, rest) ->
  member_unpack (@field T F R name get set) v
    (member_pack (@field T F R name get set) x ++ rest)
  = Some (set y v, rest).
Proof. intros Hy. cbn. rewrite Hy. reflexivity. Qed.

Lemma length_pack_unsigned_int (v : Z) : (1 <= length (pack_unsigned_int v))%nat.
Proof.
  unfold pack_unsigned_int. cbn [pack_unsigned_int_aux].
  destruct (_ =? 0); cbn [length]; lia.
Qed.

Lemma length_pack_elements_elem {A : Type} (R : Raw A) (l : list A) (x : A) :
  In x l -> (length (@pack _ R x) <= length (@pack_elements _ R l))%nat.
Proof.
  induction l as [|y l IH]; intros Hx.
  - destruct Hx.
  - cbn [pack_elements]. rewrite length_app.
    destruct Hx as [->|Hx]; [lia|].
    specialize (IH Hx). lia.
Qed.

Lemma length_pack_vector_elem {A : Type} (R : Raw A) (l : list A) (x : A) :
  In x l -> (length (@pack _ R x) < length (@pack _ (@vector_raw _ R) l))%nat.
Proof.
  intros Hx. change (@pack _ (@vector_raw _ R) l) with (@pack_vector _ R l).
  unfold pack_vector. rewrite length_app.
  pose proof (length_pack_unsigned_int (Z.of_nat (length l))).
  pose proof (length_pack_elements_elem R l x Hx). lia.
Qed.

(** The declarations of the tree over any unpacking of MessageOutput. *)
Section Over.
Variable u : bytes -> option (MessageOutput * bytes).

Definition over : Raw MessageOutput :=
  {| pack := pack_MessageOutput; unpack := u |}.

Definition reads_back_with (o : MessageOutput) : Prop :=
  forall rest : bytes,
    u (pack_MessageOutput o ++ rest) = Some (MessageOutput_forget_bodies o, rest).

Lemma pack_MessageOutput_over (m : MessageOutput) :
  pack_MessageOutput m = pack_reflected (reflect_MessageOutput over) m.
Proof. destruct m; reflexivity. Qed.

Lemma pack_MessageOutput_fields (n : list NotifyOutput) (i : InlineTransaction)
    (d : list GeneratedTransaction) :
  pack_MessageOutput (Build_MessageOutput n i d)
  = @pack _ (@vector_raw _ (NotifyOutput_overload over)) n
    ++ @pack _ (InlineTransaction_overload over) i
    ++ pack d.
Proof.
  rewrite <- (app_nil_r (pack d)). reflexivity.
Qed.

Lemma pack_NotifyOutput_over (a : AccountName) (o : MessageOutput) :
  @pack _ (NotifyOutput_overload over) (Build_NotifyOutput a o)
  = pack a ++ pack_MessageOutput o.
Proof. rewrite <- (app_nil_r (pack_MessageOutput o)). reflexivity. Qed.

Lemma pack_InlineTransaction_over (b : Transaction) (o : list MessageOutput) :
  @pack _ (InlineTransaction_overload over) (Build_InlineTransaction b o)
  = pack b ++ @pack _ (@vector_raw _ over) o.
Proof.
  change (pack_reflected (reflect_InlineTransaction over)
            (Build_InlineTransaction b o)
          = pack b ++ @pack _ (@vector_raw _ over) o).
  unfold reflect_InlineTransaction.
  rewrite FC_REFLECT_DERIVED_one_base, pack_reflected_app, pack_reflected_inherit.
  f_equal. unfold pack_reflected. cbn [map concat]. apply app_nil_r.
Qed.

Lemma outputs_read_back_with (o : list MessageOutput) (rest : bytes) :
  Forall reads_back_with o ->
  Z.of_nat (length o) < 2 ^ 32 ->
  @unpack _ (@vector_raw _ over) (@pack _ (@vector_raw _ over) o ++ rest)
  = Some (map MessageOutput_forget_bodies o, rest).
Proof. intros Ho Hlen. apply unpack_vector_map; assumption. Qed.

Lemma NotifyOutput_reads_back_with (n : NotifyOutput) (rest : bytes) :
  raw_valid (NotifyOutput_name n) ->
  reads_back_with (NotifyOutput_output n) ->
  @unpack _ (NotifyOutput_overload over)
    (@pack _ (NotifyOutput_overload over) n ++ rest)
  = Some (NotifyOutput_forget_bodies n, rest).
Proof.
  destruct n as [a o]. cbn [NotifyOutput_name NotifyOutput_output].
  intros Ha Ho.
  change (unpack_reflected (reflect_NotifyOutput over) NotifyOutput_default
            (pack_reflected (reflect_NotifyOutput over) (Build_NotifyOutput a o)
             ++ rest)
          = Some (NotifyOutput_forget_bodies (Build_NotifyOutput a o), rest)).
  unfold reflect_NotifyOutput, FC_REFLECT, FC_REFLECT_DERIVED.
  cbn [concat app]. unfold pack_reflected. cbn [map concat unpack_reflected].
  rewrite <- !app_assoc. change ([] ++ rest) with rest.
  rewrite (member_unpack_field (H0 := AccountName_ok)) by exact Ha.
  rewrite (member_unpack_field_as over _ _ _ _ _
             (MessageOutput_forget_bodies o)) by apply Ho.
  reflexivity.
Qed.

Lemma InlineTransaction_reads_back_with (i : InlineTransaction) (rest : bytes) :
  Transaction_valid (InlineTransaction_base i) ->
  Forall reads_back_with (InlineTransaction_output i) ->
  Z.of_nat (length (InlineTransaction_output i)) < 2 ^ 32 ->
  @unpack _ (InlineTransaction_overload over)
    (@pack _ (InlineTransaction_overload over) i ++ rest)
  = Some (InlineTransaction_forget_bodies i, rest).
Proof.
  destruct i as [b o]. cbn [InlineTransaction_base InlineTransaction_output].
  intros Hb Ho Hlen.
  change (unpack_reflected (reflect_InlineTransaction over)
            InlineTransaction_default
            (pack_reflected (reflect_InlineTransaction over)
               (Build_InlineTransaction b o) ++ rest)
          = Some (InlineTransaction_forget_bodies (Build_InlineTransaction b o),
                  rest)).
  unfold reflect_InlineTransaction.
  rewrite FC_REFLECT_DERIVED_one_base, pack_reflected_app, unpack_reflected_app.
  rewrite pack_reflected_inherit, <- app_assoc.
  rewrite unpack_reflected_inherit; try reflexivity.
  - cbn [InlineTransaction_base].
    rewrite unpack_pack_reflected_Transaction by exact Hb.
    unfold pack_reflected. cbn [map concat unpack_reflected].
    rewrite <- app_assoc. change ([] ++ rest) with rest.
    rewrite (member_unpack_field_as (@vector_raw _ over) _ _ _ _ _
               (map MessageOutput_forget_bodies o))
      by (apply outputs_read_back_with; assumption).
    reflexivity.
  - intros [b' o']. reflexivity.
Qed.

Lemma MessageOutput_reads_back_with (n : list NotifyOutput)
    (i : InlineTransaction) (d : list GeneratedTransaction) (rest : bytes) :
  Forall (fun x => raw_valid (NotifyOutput_name x)
                   /\ reads_back_with (NotifyOutput_output x)) n ->
  Z.of_nat (length n) < 2 ^ 32 ->
  Transaction_valid (InlineTransaction_base i) ->
  Forall reads_back_with (InlineTransaction_output i) ->
  Z.of_nat (length (InlineTransaction_output i)) < 2 ^ 32 ->
  Forall (fun g => raw_valid (GeneratedTransaction_id g)) d ->
  Z.of_nat (length d) < 2 ^ 32 ->
  unpack_reflected (reflect_MessageOutput over) MessageOutput_default
    (pack_MessageOutput (Build_MessageOutput n i d) ++ rest)
  = Some (MessageOutput_forget_bodies (Build_MessageOutput n i d), rest).
Proof.
  intros Hn Hnlen Hb Ho Holen Hd Hdlen.
  rewrite pack_MessageOutput_over.
  unfold reflect_MessageOutput, FC_REFLECT, FC_REFLECT_DERIVED.
  cbn [concat app]. unfold pack_reflected. cbn [map concat unpack_reflected].
  rewrite <- !app_assoc. change ([] ++ rest) with rest.
  rewrite (member_unpack_field_as
             (@vector_raw _ (NotifyOutput_overload over)) _ _ _ _ _
             (map NotifyOutput_forget_bodies n)).
  2:{ apply unpack_vector_map; [|exact Hnlen].
      apply Forall_forall. intros x Hx rest'.
      destruct (proj1 (Forall_forall _ _) Hn x Hx) as [Hx1 Hx2].
      apply NotifyOutput_reads_back_with; assumption. }
  rewrite (member_unpack_field_as (InlineTransaction_overload over) _ _ _ _ _
             (InlineTransaction_forget_bodies i))
    by (apply InlineTransaction_reads_back_with; assumption).
  rewrite (member_unpack_field_as vector_raw _ _ _ _ _ (map forget_body d)).
  2:{ apply unpack_vector_map; [|exact Hdlen].
      apply Forall_forall. intros g Hg rest'.
      apply GeneratedTransaction_unpack_pack.
      exact (proj1 (Forall_forall _ _) Hd g Hg). }
  reflexivity.
Qed.

End Over.
End OutputTreeReadsBack.

(** ** The output tree reads back up to the bodies of deferred transactions *)
Section OutputTreeRoundTrip.
Context `{Externals}.
Context {Message_ok : RawOk Message} {Time_ok : RawOk Time}
  {Signature_ok : RawOk Signature} {AccountName_ok : RawOk AccountName}
  {id_ok : RawOk generated_transaction_id_type}.

(** An output nested in a MessageOutput has a shorter encoding. *)
Lemma length_pack_notified (n : list NotifyOutput) (i : InlineTransaction)
    (d : list GeneratedTransaction) (a : AccountName) (o : MessageOutput) :
  In (Build_NotifyOutput a o) n ->
  (length (pack_MessageOutput o)
   < length (pack_MessageOutput (Build_MessageOutput n i d)))%nat.
Proof.
  intros Hin.
  rewrite (pack_MessageOutput_fields (fun _ => None)), !length_app.
  pose proof (length_pack_vector_elem
                (NotifyOutput_overload (over (fun _ => None))) n _ Hin) as Hlt.
  rewrite pack_NotifyOutput_over, length_app in Hlt. lia.
Qed.

Lemma length_pack_inlined (n : list NotifyOutput) (b : Transaction)
    (os : list MessageOutput) (d : list GeneratedTransaction) (o : MessageOutput) :
  In o os ->
  (length (pack_MessageOutput o)
   < length (pack_MessageOutput
               (Build_MessageOutput n (Build_InlineTransaction b os) d)))%nat.
Proof.
  intros Hin.
  rewrite (pack_MessageOutput_fields (fun _ => None)), !length_app.
  rewrite pack_InlineTransaction_over, length_app.
  pose proof (length_pack_vector_elem (over (fun _ => None)) os o Hin) as Hlt.
  change (@pack _ (over (fun _ => None)) o) with (pack_MessageOutput o) in Hlt.
  lia.
Qed.

(** Enough depth reads a valid tree back, the bodies of its deferred
    transactions forgotten. *)
Lemma unpack_MessageOutput_within_pack (depth : nat) :
  forall (m : MessageOutput) (rest : bytes),
    (length (pack_MessageOutput m) < depth)%nat ->
    MessageOutput_valid m ->
    unpack_MessageOutput_within depth (pack_MessageOutput m ++ rest)
    = Some (MessageOutput_forget_bodies m, rest).
Proof.
  induction depth as [|depth IH]; intros m rest Hlen Hm; [lia|].
  inversion Hm as [n i d Hn Hnlen Hi Hd Hdlen]; subst m.
  change (unpack_reflected
            (reflect_MessageOutput (over (unpack_MessageOutput_within depth)))
            MessageOutput_default
            (pack_MessageOutput (Build_MessageOutput n i d) ++ rest)
          = Some (MessageOutput_forget_bodies (Build_MessageOutput n i d), rest)).
  inversion Hi as [b os Hb Hos Hoslen]; subst i.
  apply MessageOutput_reads_back_with; try assumption.
  - apply Forall_forall. intros x Hx.
    pose proof (proj1 (Forall_forall _ _) Hn x Hx) as Hvx.
    inversion Hvx as [a o Ha Ho]; subst x.
    split; [exact Ha|]. intros rest'. cbn [NotifyOutput_output].
    apply IH; [|exact Ho].
    pose proof (length_pack_notified n (Build_InlineTransaction b os) d a o Hx).
    lia.
  - apply Forall_forall. intros o Ho rest'.
    apply IH; [|exact (proj1 (Forall_forall _ _) Hos o Ho)].
    pose proof (length_pack_inlined n b os d o Ho). lia.
Qed.

Lemma MessageOutput_reads_back (m : MessageOutput) :
  MessageOutput_valid m ->
  reads_back_with (fun bs => unpack_MessageOutput_within (S (length bs)) bs) m.
Proof.
  intros Hm rest. apply unpack_MessageOutput_within_pack; [|exact Hm].
  rewrite length_app. lia.
Qed.

Lemma outputs_read_back (o : list MessageOutput) (rest : bytes) :
  outputs_valid o ->
  unpack (pack o ++ rest) = Some (map MessageOutput_forget_bodies o, rest).
Proof.
  intros [Ho Hlen].
  apply (outputs_read_back_with
           (fun bs => unpack_MessageOutput_within (S (length bs)) bs));
    [|exact Hlen].
  apply Forall_forall. intros x Hx. apply MessageOutput_reads_back.
  exact (proj1 (Forall_forall _ _) Ho x Hx).
Qed.

Lemma pack_elements_map_same {A : Type} (R : Raw A) (f : A -> A) (l : list A) :
  Forall (fun x => @pack _ R (f x) = @pack _ R x) l ->
  @pack _ (@vector_raw _ R) (map f l) = @pack _ (@vector_raw _ R) l.
Proof.
  intros Hl.
  change (@pack_vector _ R (map f l) = @pack_vector _ R l).
  unfold pack_vector. rewrite length_map. f_equal.
  induction Hl as [|x l Hx Hl IH]; [reflexivity|].
  cbn [map pack_elements]. rewrite Hx, IH. reflexivity.
Qed.

(** Forgetting the bodies of the deferred transactions changes no byte of
    the encoding. *)
Lemma pack_MessageOutput_forget_bodies_within (depth : nat) :
  forall m : MessageOutput,
    (length (pack_MessageOutput m) < depth)%nat ->
    pack_MessageOutput (MessageOutput_forget_bodies m) = pack_MessageOutput m.
Proof.
  induction depth as [|depth IH]; intros m Hlen; [lia|].
  destruct m as [n [b os] d].
  cbn [MessageOutput_forget_bodies InlineTransaction_forget_bodies].
  rewrite !(pack_MessageOutput_fields (fun _ => None)).
  rewrite !pack_InlineTransaction_over.
  f_equal; [|f_equal; [f_equal|]].
  - apply pack_elements_map_same. apply Forall_forall. intros [a o] Hx.
    cbn [NotifyOutput_forget_bodies]. rewrite !pack_NotifyOutput_over.
    f_equal. apply IH.
    pose proof (length_pack_notified n (Build_InlineTransaction b os) d a o Hx).
    lia.
  - apply (pack_elements_map_same (over (fun _ => None))).
    apply Forall_forall. intros o Ho. apply IH.
    pose proof (length_pack_inlined n b os d o Ho). lia.
  - apply pack_elements_map_same. apply Forall_forall. intros [b0 i0] _.
    exact (pack_GeneratedTransaction_any_body i0 inhabitant b0).
Qed.

Lemma pack_MessageOutput_forget_bodies (m : MessageOutput) :
  pack (MessageOutput_forget_bodies m) = pack m.
Proof.
  apply (pack_MessageOutput_forget_bodies_within
           (S (length (pack_MessageOutput m)))).
  lia.
Qed.

Lemma pack_outputs_forget_bodies (o : list MessageOutput) :
  pack (map MessageOutput_forget_bodies o) = pack o.
Proof.
  apply pack_elements_map_same. apply Forall_forall. intros m _.
  apply pack_MessageOutput_forget_bodies.
Qed.

Lemma NotifyOutput_reads_back (n : NotifyOutput) (rest : bytes) :
  NotifyOutput_valid n ->
  unpack (pack n ++ rest) = Some (NotifyOutput_forget_bodies n, rest).
Proof.
  intros Hn. inversion Hn as [a o Ha Ho]; subst n.
  apply (NotifyOutput_reads_back_with
           (fun bs => unpack_MessageOutput_within (S (length bs)) bs));
    [exact Ha|].
  apply MessageOutput_reads_back. exact Ho.
Qed.

Lemma InlineTransaction_reads_back (i : InlineTransaction) (rest : bytes) :
  InlineTransaction_valid i ->
  unpack (pack i ++ rest) = Some (InlineTransaction_forget_bodies i, rest).
Proof.
  intros Hi. inversion Hi as [b o Hb Ho Hlen]; subst i.
  apply (InlineTransaction_reads_back_with
           (fun bs => unpack_MessageOutput_within (S (length bs)) bs));
    [exact Hb| |exact Hlen].
  apply Forall_forall. intros x Hx. apply MessageOutput_reads_back.
  exact (proj1 (Forall_forall _ _) Ho x Hx).
Qed.

Lemma ProcessedTransaction_reads_back (p : ProcessedTransaction) (rest : bytes) :
  types_SignedTransaction_valid p ->
  outputs_valid (ProcessedTransaction_output p) ->
  unpack (pack p ++ rest) = Some (ProcessedTransaction_forget_bodies p, rest).
Proof.
  destruct p as [[s] o]. cbn [ProcessedTransaction_output]. intros Hs Ho.
  change (unpack_reflected (reflect_ProcessedTransaction MessageOutput_raw)
            ProcessedTransaction_default
            (pack_reflected (reflect_ProcessedTransaction MessageOutput_raw)
               (Build_ProcessedTransaction (Build_SignedTransaction s) o) ++ rest)
          = Some (ProcessedTransaction_forget_bodies
                    (Build_ProcessedTransaction (Build_SignedTransaction s) o),
                  rest)).
  unfold reflect_ProcessedTransaction.
  rewrite FC_REFLECT_DERIVED_one_base, pack_reflected_app, unpack_reflected_app.
  rewrite pack_reflected_inherit, <- app_assoc.
  rewrite unpack_reflected_inherit; try reflexivity.
  - rewrite unpack_pack_reflected_types_SignedTransaction by exact Hs.
    unfold pack_reflected. cbn [map concat unpack_reflected].
    rewrite <- app_assoc. change ([] ++ rest) with rest.
    rewrite (member_unpack_field_as vector_raw _ _ _ _ _
               (map MessageOutput_forget_bodies o))
      by (apply outputs_read_back; exact Ho).
    reflexivity.
  - intros [[s'] o']. reflexivity.
Qed.

Lemma ProcessedGeneratedTransaction_reads_back
    (p : ProcessedGeneratedTransaction) (rest : bytes) :
  raw_valid (ProcessedGeneratedTransaction_id p) ->
  outputs_valid (ProcessedGeneratedTransaction_output p) ->
  unpack (pack p ++ rest)
  = Some (ProcessedGeneratedTransaction_forget_bodies p, rest).
Proof.
  destruct p as [i o].
  cbn [ProcessedGeneratedTransaction_id ProcessedGeneratedTransaction_output].
  intros Hi Ho.
  change (unpack_reflected
            (reflect_ProcessedGeneratedTransaction MessageOutput_raw)
            ProcessedGeneratedTransaction_default
            (pack_reflected
               (reflect_ProcessedGeneratedTransaction MessageOutput_raw)
               (Build_ProcessedGeneratedTransaction i o) ++ rest)
          = Some (ProcessedGeneratedTransaction_forget_bodies
                    (Build_ProcessedGeneratedTransaction i o), rest)).
  unfold reflect_ProcessedGeneratedTransaction, FC_REFLECT, FC_REFLECT_DERIVED.
  cbn [concat app]. unfold pack_reflected. cbn [map concat unpack_reflected].
  rewrite <- !app_assoc. change ([] ++ rest) with rest.
  rewrite (member_unpack_field (H0 := id_ok)) by exact Hi.
  rewrite (member_unpack_field_as vector_raw _ _ _ _ _
             (map MessageOutput_forget_bodies o))
    by (apply outputs_read_back; exact Ho).
  reflexivity.
Qed.

End OutputTreeRoundTrip.

(** ** The sample tree is valid *)
Module SampleTreeOk.
Import Sample SampleOk SampleTree.

#[global] Instance account_name_ok : RawOk AccountName := uint64_ok.

Lemma generated_id_valid (g : GeneratedTransaction) :
  0 <= GeneratedTransaction_id g < 2 ^ 32 ->
  @raw_valid _ _ generated_transaction_id_ok (GeneratedTransaction_id g).
Proof. intros Hg. exact Hg. Qed.

Lemma deferring_valid (g : GeneratedTransaction) :
  0 <= GeneratedTransaction_id g < 2 ^ 32 -> MessageOutput_valid (deferring g).
Proof.
  intros Hg. constructor.
  - constructor.
  - cbn. lia.
  - constructor; [|constructor|cbn; lia].
    split; [split; [constructor|cbn; lia]|cbn; lia].
  - constructor; [exact Hg|constructor].
  - cbn. lia.
Qed.

Lemma output_valid : MessageOutput_valid output.
Proof.
  constructor.
  - constructor; [|constructor].
    constructor; [cbn; lia|apply deferring_valid; cbn; lia].
  - cbn. lia.
  - constructor; [exact trx_valid| |cbn; lia].
    constructor; [apply deferring_valid; cbn; lia|constructor].
  - constructor; [cbn; lia|constructor].
  - cbn. lia.
Qed.

Lemma outputs_of_processed_valid :
  outputs_valid (ProcessedTransaction_output processed).
Proof.
  split; [|cbn; lia].
  constructor; [exact output_valid|].
  constructor; [apply deferring_valid; cbn; lia|constructor].
Qed.

End SampleTreeOk.

(** ** Further properties of the encoding and of the constructors *)
Section EncodingLayout.
Context `{Externals}.

(** A ProcessedTransaction built from a SignedTransaction keeps the whole
    signed transaction, the signatures included, and has an empty output
    sequence; a default-constructed one has an empty output sequence too. *)
Lemma ProcessedTransaction_of_signed_keeps_signed (s : SignedTransaction) :
  let p := ProcessedTransaction_of_signed s in
  ProcessedTransaction_super p = s
  /\ messages p = messages s
  /\ ref_block_num p = ref_block_num s
  /\ ref_block_prefix p = ref_block_prefix s
  /\ expiration p = expiration s
  /\ signatures p = signatures s
  /\ ProcessedTransaction_output p = []
  /\ ProcessedTransaction_output ProcessedTransaction_default = [].
Proof. cbn. repeat split. Qed.

(** X6. The encoding of a GeneratedTransaction is the encoding of its id,
    for every value: what the constructor took as the transaction never
    reaches the encoding, and two generated transactions with one id encode
    alike whatever their bodies. *)
Theorem GeneratedTransaction_encoding_depends_on_id_only
    (g : GeneratedTransaction) (i : generated_transaction_id_type)
    (trx1 trx2 : Transaction) :
  pack g = pack (GeneratedTransaction_id g)
  /\ pack (GeneratedTransaction_new i trx1) = pack i
  /\ pack (GeneratedTransaction_new i trx1) = pack (GeneratedTransaction_new i trx2).
Proof.
  split; [apply pack_GeneratedTransaction|].
  split; [apply (pack_GeneratedTransaction (GeneratedTransaction_new i trx1))|].
  apply pack_GeneratedTransaction_any_body.
Qed.

Lemma pack_SignedTransaction (s : SignedTransaction) :
  pack s = pack (SignedTransaction_super s).
Proof.
  change (pack s) with (pack_reflected reflect_SignedTransaction s).
  unfold reflect_SignedTransaction.
  rewrite FC_REFLECT_DERIVED_one_base, pack_reflected_app.
  rewrite pack_reflected_inherit. apply app_nil_r.
Qed.

Lemma pack_ProcessedTransaction (p : ProcessedTransaction) :
  pack p = pack (SignedTransaction_super p) ++ pack (ProcessedTransaction_output p).
Proof.
  change (pack p)
    with (pack_reflected (reflect_ProcessedTransaction MessageOutput_raw) p).
  unfold reflect_ProcessedTransaction.
  rewrite FC_REFLECT_DERIVED_one_base, pack_reflected_app.
  rewrite pack_reflected_inherit. f_equal.
  unfold pack_reflected. cbn [map concat]. apply app_nil_r.
Qed.

Lemma pack_MessageOutput_members (m : MessageOutput) :
  pack m = pack (notify m) ++ pack (inline_transaction m)
           ++ pack (deferred_transactions m).
Proof.
  destruct m as [n i d]. cbn [notify inline_transaction deferred_transactions].
  rewrite <- (app_nil_r (pack d)). reflexivity.
Qed.

Lemma pack_NotifyOutput (n : NotifyOutput) :
  pack n = pack (NotifyOutput_name n) ++ pack (NotifyOutput_output n).
Proof.
  destruct n as [a o]. cbn [NotifyOutput_name NotifyOutput_output].
  rewrite <- (app_nil_r (pack o)). reflexivity.
Qed.

Lemma pack_ProcessedGeneratedTransaction (p : ProcessedGeneratedTransaction) :
  pack p = pack (ProcessedGeneratedTransaction_id p)
           ++ pack (ProcessedGeneratedTransaction_output p).
Proof.
  destruct p as [i o].
  cbn [ProcessedGeneratedTransaction_id ProcessedGeneratedTransaction_output].
  rewrite <- (app_nil_r (pack o)). reflexivity.
Qed.

(** X7. SignedTransaction and PendingInlineTransaction are declared with
    their base and no member of their own: each encodes exactly as its base
    does, under the names of the base's members. *)
Theorem derived_without_members_encode_as_base (s : SignedTransaction)
    (p : PendingInlineTransaction) :
  pack s = pack (SignedTransaction_super s)
  /\ pack p = pack (PendingInlineTransaction_super p)
  /\ reflected_names reflect_SignedTransaction
     = reflected_names reflect_types_SignedTransaction
  /\ reflected_names reflect_PendingInlineTransaction
     = reflected_names reflect_Transaction.
Proof.
  split; [apply pack_SignedTransaction|].
  split; [apply pack_PendingInlineTransaction|].
  split; reflexivity.
Qed.

(** X8. InlineTransaction and ProcessedTransaction are declared with their
    base and the member output: each encodes as its base followed by its
    output sequence. For ProcessedTransaction the base named is
    types::SignedTransaction, which is also all that its direct base
    SignedTransaction writes. *)
Theorem derived_with_output_encode_base_then_output (i : InlineTransaction)
    (p : ProcessedTransaction) :
  pack i = pack (InlineTransaction_base i) ++ pack (InlineTransaction_output i)
  /\ pack p = pack (SignedTransaction_super p)
              ++ pack (ProcessedTransaction_output p)
  /\ pack p = pack (ProcessedTransaction_super p)
              ++ pack (ProcessedTransaction_output p)
  /\ reflected_names (reflect_InlineTransaction MessageOutput_raw)
     = reflected_names reflect_Transaction ++ ["output"]
  /\ reflected_names (reflect_ProcessedTransaction MessageOutput_raw)
     = reflected_names reflect_types_SignedTransaction ++ ["output"].
Proof.
  split; [apply pack_InlineTransaction|].
  split; [apply pack_ProcessedTransaction|].
  split; [|split; reflexivity].
  rewrite pack_ProcessedTransaction, pack_SignedTransaction. reflexivity.
Qed.

(** X9. MessageOutput, NotifyOutput and ProcessedGeneratedTransaction are
    declared with their members only: each encodes as its members in the
    declared order. *)
Theorem members_encode_in_declared_order (m : MessageOutput) (n : NotifyOutput)
    (p : ProcessedGeneratedTransaction) :
  (pack m = pack (notify m) ++ pack (inline_transaction m)
            ++ pack (deferred_transactions m)
   /\ reflected_names (reflect_MessageOutput MessageOutput_raw)
      = ["notify"; "inline_transaction"; "deferred_transactions"])
  /\ (pack n = pack (NotifyOutput_name n) ++ pack (NotifyOutput_output n)
      /\ reflected_names (reflect_NotifyOutput MessageOutput_raw)
         = ["name"; "output"])
  /\ (pack p = pack (ProcessedGeneratedTransaction_id p)
               ++ pack (ProcessedGeneratedTransaction_output p)
      /\ reflected_names (reflect_ProcessedGeneratedTransaction MessageOutput_raw)
         = ["id"; "output"]).
Proof.
  split; [split; [apply pack_MessageOutput_members|reflexivity]|].
  split; [split; [apply pack_NotifyOutput|reflexivity]|].
  split; [apply pack_ProcessedGeneratedTransaction|reflexivity].
Qed.

Lemma pack_no_outputs : pack (@nil MessageOutput) = ["000"%byte].
Proof. reflexivity. Qed.

(** X10. A processed form fresh from its constructor encodes as what it was
    built from, followed by the single byte 0 that counts its empty output
    sequence. For ProcessedGeneratedTransaction this is the encoding of the
    id, which is also the whole encoding of the GeneratedTransaction. *)
Theorem fresh_processed_forms_encode_source_then_zero (s : SignedTransaction)
    (t : PendingInlineTransaction) (g : GeneratedTransaction) :
  pack (ProcessedTransaction_of_signed s) = pack s ++ ["000"%byte]
  /\ pack (InlineTransaction_of_pending t) = pack t ++ ["000"%byte]
  /\ pack (ProcessedGeneratedTransaction_of_generated g) = pack g ++ ["000"%byte]
  /\ pack (ProcessedGeneratedTransaction_of_id (GeneratedTransaction_id g))
     = pack (GeneratedTransaction_id g) ++ ["000"%byte].
Proof.
  split; [|split; [|split]].
  - rewrite pack_ProcessedTransaction, pack_SignedTransaction.
    cbn [ProcessedTransaction_of_signed ProcessedTransaction_super
         ProcessedTransaction_output].
    rewrite pack_no_outputs. reflexivity.
  - rewrite pack_InlineTransaction, pack_PendingInlineTransaction.
    cbn [InlineTransaction_of_pending InlineTransaction_base
         InlineTransaction_output].
    rewrite pack_no_outputs. reflexivity.
  - rewrite pack_ProcessedGeneratedTransaction, pack_GeneratedTransaction.
    cbn [ProcessedGeneratedTransaction_of_generated
         ProcessedGeneratedTransaction_id ProcessedGeneratedTransaction_output].
    rewrite pack_no_outputs. reflexivity.
  - rewrite pack_ProcessedGeneratedTransaction.
    cbn [ProcessedGeneratedTransaction_of_id
         ProcessedGeneratedTransaction_id ProcessedGeneratedTransaction_output].
    rewrite pack_no_outputs. reflexivity.
Qed.

End EncodingLayout.

(** ** Round trips *)
Section RoundTrips.
Context `{Externals}.
Context {Message_ok : RawOk Message} {Time_ok : RawOk Time}
  {Signature_ok : RawOk Signature} {AccountName_ok : RawOk AccountName}
  {id_ok : RawOk generated_transaction_id_type}.

(** X11. A SignedTransaction whose fields are in the range of their types
    reads back from its encoding as it was, the signatures included, and
    what followed it in the stream is left. *)
Theorem SignedTransaction_reads_back (s : SignedTransaction) (rest : bytes) :
  types_SignedTransaction_valid s ->
  unpack (pack s ++ rest) = Some (s, rest).
Proof. intros Hs. apply SignedTransaction_round_trip. exact Hs. Qed.

(** X12. A PendingInlineTransaction whose fields are in the range of their
    types reads back from its encoding as it was. *)
Theorem PendingInlineTransaction_reads_back (p : PendingInlineTransaction)
    (rest : bytes) :
  Transaction_valid p ->
  unpack (pack p ++ rest) = Some (p, rest).
Proof. intros Hp. apply PendingInlineTransaction_round_trip. exact Hp. Qed.

(** X13. A GeneratedTransaction reads back as its id over a
    default-constructed body, whatever its body was; it reads back as it
    was exactly when its body is the default-constructed one. *)
Theorem GeneratedTransaction_reads_back_without_body (g : GeneratedTransaction)
    (rest : bytes) :
  raw_valid (GeneratedTransaction_id g) ->
  unpack (pack g ++ rest) = Some (forget_body g, rest)
  /\ (unpack (pack g ++ rest) = Some (g, rest)
      <-> GeneratedTransaction_base g = inhabitant).
Proof.
  intros Hg.
  pose proof (GeneratedTransaction_unpack_pack g rest Hg) as Hread.
  split; [exact Hread|].
  rewrite Hread. destruct g as [b i]. unfold forget_body. cbn. split.
  - intros Heq. injection Heq as Hb. symmetry. exact Hb.
  - intros ->. reflexivity.
Qed.

(** X14. A MessageOutput whose fields are in the range of their types reads
    back from its encoding with the body of every deferred transaction, at
    every level of the tree, replaced by a default-constructed one, and
    otherwise as it was: notifications, inline transactions and their
    outputs, and the ids of the deferred transactions are kept. Forgetting
    those bodies changes no byte of the encoding. *)
Theorem MessageOutput_reads_back_without_bodies (m : MessageOutput)
    (rest : bytes) :
  MessageOutput_valid m ->
  unpack (pack m ++ rest) = Some (MessageOutput_forget_bodies m, rest)
  /\ pack (MessageOutput_forget_bodies m) = pack m
  /\ (MessageOutput_forget_bodies m = m ->
      unpack (pack m ++ rest) = Some (m, rest)).
Proof.
  intros Hm.
  pose proof (MessageOutput_reads_back m Hm rest) as Hread.
  split; [exact Hread|].
  split; [apply pack_MessageOutput_forget_bodies|].
  intros Hsame.
  transitivity (Some (MessageOutput_forget_bodies m, rest)); [exact Hread|].
  rewrite Hsame. reflexivity.
Qed.

(** X15. NotifyOutput and InlineTransaction read back in the same way: the
    name, the base transaction and the shape of the outputs are kept, the
    bodies of the deferred transactions below are forgotten. *)
Theorem NotifyOutput_InlineTransaction_read_back_without_bodies
    (n : NotifyOutput) (i : InlineTransaction) (rest : bytes) :
  NotifyOutput_valid n ->
  InlineTransaction_valid i ->
  unpack (pack n ++ rest) = Some (NotifyOutput_forget_bodies n, rest)
  /\ unpack (pack i ++ rest) = Some (InlineTransaction_forget_bodies i, rest)
  /\ NotifyOutput_name (NotifyOutput_forget_bodies n) = NotifyOutput_name n
  /\ InlineTransaction_base (InlineTransaction_forget_bodies i)
     = InlineTransaction_base i
  /\ length (InlineTransaction_output (InlineTransaction_forget_bodies i))
     = length (InlineTransaction_output i).
Proof.
  intros Hn Hi.
  split; [apply NotifyOutput_reads_back; exact Hn|].
  split; [apply InlineTransaction_reads_back; exact Hi|].
  destruct n as [a o], i as [b os]. cbn.
  split; [reflexivity|]. split; [reflexivity|]. apply length_map.
Qed.

(** X16. ProcessedTransaction and ProcessedGeneratedTransaction read back
    with the signed transaction (the id) and the number of outputs as they
    were, and the bodies of the deferred transactions in the outputs
    forgotten. *)
Theorem processed_forms_read_back_without_bodies (p : ProcessedTransaction)
    (q : ProcessedGeneratedTransaction) (rest : bytes) :
  types_SignedTransaction_valid p ->
  outputs_valid (ProcessedTransaction_output p) ->
  raw_valid (ProcessedGeneratedTransaction_id q) ->
  outputs_valid (ProcessedGeneratedTransaction_output q) ->
  unpack (pack p ++ rest) = Some (ProcessedTransaction_forget_bodies p, rest)
  /\ unpack (pack q ++ rest)
     = Some (ProcessedGeneratedTransaction_forget_bodies q, rest)
  /\ ProcessedTransaction_super (ProcessedTransaction_forget_bodies p)
     = ProcessedTransaction_super p
  /\ length (ProcessedTransaction_output (ProcessedTransaction_forget_bodies p))
     = length (ProcessedTransaction_output p)
  /\ ProcessedGeneratedTransaction_id (ProcessedGeneratedTransaction_forget_bodies q)
     = ProcessedGeneratedTransaction_id q.
Proof.
  intros Hp Hpo Hq Hqo.
  split; [apply ProcessedTransaction_reads_back; assumption|].
  split; [apply ProcessedGeneratedTransaction_reads_back; assumption|].
  cbn. split; [reflexivity|]. split; [apply length_map|reflexivity].
Qed.

(** X17. The processed forms fresh from their constructors, which have no
    output yet, read back exactly as they were. *)
Theorem fresh_processed_forms_read_back (s : SignedTransaction)
    (t : PendingInlineTransaction) (i : generated_transaction_id_type)
    (rest : bytes) :
  types_SignedTransaction_valid s ->
  Transaction_valid t ->
  raw_valid i ->
  unpack (pack (ProcessedTransaction_of_signed s) ++ rest)
  = Some (ProcessedTransaction_of_signed s, rest)
  /\ unpack (pack (InlineTransaction_of_pending t) ++ rest)
     = Some (InlineTransaction_of_pending t, rest)
  /\ unpack (pack (ProcessedGeneratedTransaction_of_id i) ++ rest)
     = Some (ProcessedGeneratedTransaction_of_id i, rest).
Proof.
  intros Hs Ht Hi.
  assert (Hnone : outputs_valid []) by (split; [constructor|cbn; lia]).
  split; [|split].
  - rewrite ProcessedTransaction_reads_back by assumption.
    destruct s as [s0]. reflexivity.
  - rewrite InlineTransaction_reads_back; [reflexivity|].
    constructor; [exact Ht|constructor|cbn; lia].
  - rewrite ProcessedGeneratedTransaction_reads_back by assumption.
    reflexivity.
Qed.

(** X18. Two valid MessageOutputs have the same encoding exactly when they
    are the same up to the bodies of their deferred transactions: the
    encoding tells apart everything else, and nothing of those bodies. *)
Theorem MessageOutput_same_encoding_iff (m1 m2 : MessageOutput) :
  MessageOutput_valid m1 ->
  MessageOutput_valid m2 ->
  pack m1 = pack m2
  <-> MessageOutput_forget_bodies m1 = MessageOutput_forget_bodies m2.
Proof.
  intros H1 H2. split.
  - intros Heq.
    pose proof (MessageOutput_reads_back m1 H1 []) as R1.
    pose proof (MessageOutput_reads_back m2 H2 []) as R2.
    change (pack_MessageOutput m1) with (pack m1) in R1.
    change (pack_MessageOutput m2) with (pack m2) in R2.
    rewrite Heq, R2 in R1. injection R1 as R1. symmetry. exact R1.
  - intros Heq.
    rewrite <- (pack_MessageOutput_forget_bodies m1), Heq.
    apply pack_MessageOutput_forget_bodies.
Qed.

End RoundTrips.

(** ** The properties above on the sample values *)
Module SampleValid.
Import Sample SampleOk SampleTree SampleTreeOk.

Lemma notification_valid : NotifyOutput_valid notification.
Proof. constructor; [cbn; lia|exact output_valid]. Qed.

Lemma inlined_valid : InlineTransaction_valid inlined.
Proof.
  constructor; [exact trx_valid| |cbn; lia].
  constructor; [exact output_valid|constructor].
Qed.

Lemma outputs_of_processed_generated_valid :
  outputs_valid (ProcessedGeneratedTransaction_output processed_generated).
Proof.
  split; [|cbn; lia]. constructor; [exact output_valid|constructor].
Qed.

End SampleValid.

(** X1 on the sample transaction, index 1 set twice. *)
Lemma transaction_set_message_twice_witness :
  0 <= 1 < Z.of_nat (length (messages Sample.trx))
  /\ exists old : Message,
       messages Sample.trx !! Z.to_nat 1 = Some old
       /\ and_then
            (@transaction_set_message Sample.externals UInt32 UInt32_raw
               Sample.trx 1 9 5)
            (fun t1 => @transaction_set_message Sample.externals UInt32
                         UInt32_raw t1 1 8 6)
          = Returns (set_messages
                       (<[Z.to_nat 1 :=
                            @Message_set Sample.externals UInt32 UInt32_raw 8 6
                              (@Message_set Sample.externals UInt32 UInt32_raw
                                 9 5 old)]>
                          (messages Sample.trx)) Sample.trx).
Proof.
  split; [cbn; lia|].
  apply (@transaction_set_message_twice Sample.externals UInt32 UInt32
           UInt32_raw UInt32_raw Sample.trx 1 9 8 5 6).
  cbn. lia.
Defined.

(** X2 on the sample transaction, indices 0 and 1. *)
Lemma transaction_set_message_commute_witness :
  0 <> 1
  /\ and_then
       (@transaction_set_message Sample.externals UInt32 UInt32_raw
          Sample.trx 0 9 5)
       (fun t1 => @transaction_set_message Sample.externals UInt32 UInt32_raw
                    t1 1 8 6)
     = and_then
         (@transaction_set_message Sample.externals UInt32 UInt32_raw
            Sample.trx 1 8 6)
         (fun t1 => @transaction_set_message Sample.externals UInt32 UInt32_raw
                      t1 0 9 5).
Proof.
  split; [lia|].
  apply (@transaction_set_message_commute Sample.externals UInt32 UInt32
           UInt32_raw UInt32_raw Sample.trx 0 1 9 8 5 6).
  lia.
Defined.

(** X3 on the sample transaction: index 1 is set, index 0 is read. *)
Lemma transaction_message_as_after_set_message_witness :
  0 <= 1 < Z.of_nat (length (messages Sample.trx))
  /\ exists old : Message,
       messages Sample.trx !! Z.to_nat 1 = Some old
       /\ and_then
            (@transaction_set_message Sample.externals UInt32 UInt32_raw
               Sample.trx 1 9 5)
            (fun t' => transaction_message_as SampleTree.message_as_UInt32 t' 0)
          = if decide (0 = 1)
            then SampleTree.message_as_UInt32
                   (@Message_set Sample.externals UInt32 UInt32_raw 9 5 old)
            else transaction_message_as SampleTree.message_as_UInt32
                   Sample.trx 0.
Proof.
  split; [cbn; lia|].
  apply (@transaction_message_as_after_set_message Sample.externals UInt32
           UInt32 UInt32_raw SampleTree.message_as_UInt32 Sample.trx 1 0 9 5).
  cbn. lia.
Defined.

(** X4 on the sample transaction and the message issue. *)
Lemma transaction_emplace_message_appends_witness :
  0 <= 1 < Z.of_nat (length (messages Sample.trx))
  /\ vector_at (messages (transaction_emplace_message Sample.trx Sample.issue)) 1
     = vector_at (messages Sample.trx) 1.
Proof.
  split; [cbn; lia|].
  apply (proj1 (transaction_emplace_message_appends Sample.trx Sample.issue)).
  cbn. lia.
Defined.

(** X11 on the sample signed transaction. *)
Lemma SignedTransaction_reads_back_witness :
  types_SignedTransaction_valid Sample.signed
  /\ unpack (pack Sample.signed ++ []) = Some (Sample.signed, []).
Proof.
  split; [exact SampleOk.signed_valid|].
  apply SignedTransaction_reads_back. exact SampleOk.signed_valid.
Defined.

(** X12 on the sample pending inline transaction. *)
Lemma PendingInlineTransaction_reads_back_witness :
  Transaction_valid Sample.pending
  /\ unpack (pack Sample.pending ++ []) = Some (Sample.pending, []).
Proof.
  split; [exact SampleOk.trx_valid|].
  apply PendingInlineTransaction_reads_back. exact SampleOk.trx_valid.
Defined.

(** X13 on the sample generated transaction. *)
Lemma GeneratedTransaction_reads_back_without_body_witness :
  raw_valid (GeneratedTransaction_id Sample.generated)
  /\ unpack (pack Sample.generated ++ [])
     = Some (forget_body Sample.generated, [])
  /\ (unpack (pack Sample.generated ++ []) = Some (Sample.generated, [])
      <-> GeneratedTransaction_base Sample.generated = inhabitant).
Proof.
  assert (Hid : raw_valid (GeneratedTransaction_id Sample.generated))
    by (cbn; lia).
  split; [exact Hid|].
  apply GeneratedTransaction_reads_back_without_body. exact Hid.
Defined.

(** X14 on the sample output tree. *)
Lemma MessageOutput_reads_back_without_bodies_witness :
  MessageOutput_valid SampleTree.output
  /\ unpack (pack SampleTree.output ++ [])
     = Some (MessageOutput_forget_bodies SampleTree.output, [])
  /\ pack (MessageOutput_forget_bodies SampleTree.output) = pack SampleTree.output
  /\ (MessageOutput_forget_bodies SampleTree.output = SampleTree.output ->
      unpack (pack SampleTree.output ++ []) = Some (SampleTree.output, [])).
Proof.
  split; [exact SampleTreeOk.output_valid|].
  apply MessageOutput_reads_back_without_bodies.
  exact SampleTreeOk.output_valid.
Defined.

(** X15 on the sample notification and inline transaction. *)
Lemma NotifyOutput_InlineTransaction_read_back_without_bodies_witness :
  NotifyOutput_valid SampleTree.notification
  /\ InlineTransaction_valid SampleTree.inlined
  /\ unpack (pack SampleTree.notification ++ [])
     = Some (NotifyOutput_forget_bodies SampleTree.notification, [])
  /\ unpack (pack SampleTree.inlined ++ [])
     = Some (InlineTransaction_forget_bodies SampleTree.inlined, []).
Proof.
  split; [exact SampleValid.notification_valid|].
  split; [exact SampleValid.inlined_valid|].
  destruct (NotifyOutput_InlineTransaction_read_back_without_bodies
              SampleTree.notification SampleTree.inlined []
              SampleValid.notification_valid SampleValid.inlined_valid)
    as (Hn & Hi & _).
  split; [exact Hn|exact Hi].
Defined.

(** X16 on the sample processed forms. *)
Lemma processed_forms_read_back_without_bodies_witness :
  types_SignedTransaction_valid SampleTree.processed
  /\ outputs_valid (ProcessedTransaction_output SampleTree.processed)
  /\ raw_valid (ProcessedGeneratedTransaction_id SampleTree.processed_generated)
  /\ outputs_valid
       (ProcessedGeneratedTransaction_output SampleTree.processed_generated)
  /\ unpack (pack SampleTree.processed ++ [])
     = Some (ProcessedTransaction_forget_bodies SampleTree.processed, [])
  /\ unpack (pack SampleTree.processed_generated ++ [])
     = Some (ProcessedGeneratedTransaction_forget_bodies
               SampleTree.processed_generated, []).
Proof.
  assert (Hid : raw_valid
                  (ProcessedGeneratedTransaction_id SampleTree.processed_generated))
    by (cbn; lia).
  split; [exact SampleOk.signed_valid|].
  split; [exact SampleTreeOk.outputs_of_processed_valid|].
  split; [exact Hid|].
  split; [exact SampleValid.outputs_of_processed_generated_valid|].
  destruct (processed_forms_read_back_without_bodies
              SampleTree.processed SampleTree.processed_generated []
              SampleOk.signed_valid SampleTreeOk.outputs_of_processed_valid
              Hid SampleValid.outputs_of_processed_generated_valid)
    as (Hp & Hq & _).
  split; [exact Hp|exact Hq].
Defined.

(** X17 on the sample signed and pending transactions and the id 7. *)
Lemma fresh_processed_forms_read_back_witness :
  types_SignedTransaction_valid Sample.signed
  /\ Transaction_valid Sample.pending
  /\ raw_valid (GeneratedTransaction_id Sample.generated)
  /\ unpack (pack (ProcessedTransaction_of_signed Sample.signed) ++ [])
     = Some (ProcessedTransaction_of_signed Sample.signed, [])
  /\ unpack (pack (InlineTransaction_of_pending Sample.pending) ++ [])
     = Some (InlineTransaction_of_pending Sample.pending, [])
  /\ unpack (pack (ProcessedGeneratedTransaction_of_id
                     (GeneratedTransaction_id Sample.generated)) ++ [])
     = Some (ProcessedGeneratedTransaction_of_id
               (GeneratedTransaction_id Sample.generated), []).
Proof.
  assert (Hid : raw_valid (GeneratedTransaction_id Sample.generated))
    by (cbn; lia).
  split; [exact SampleOk.signed_valid|].
  split; [exact SampleOk.trx_valid|].
  split; [exact Hid|].
  apply fresh_processed_forms_read_back;
    [exact SampleOk.signed_valid|exact SampleOk.trx_valid|exact Hid].
Defined.

(** X18 on two sample trees that differ in the body of a deferred
    transaction only. *)
Lemma MessageOutput_same_encoding_iff_witness :
  MessageOutput_valid (Sample.deferring Sample.generated)
  /\ MessageOutput_valid (Sample.deferring Sample.generated_no_body)
  /\ (pack (Sample.deferring Sample.generated)
      = pack (Sample.deferring Sample.generated_no_body)
      <-> MessageOutput_forget_bodies (Sample.deferring Sample.generated)
          = MessageOutput_forget_bodies (Sample.deferring Sample.generated_no_body)).
Proof.
  assert (H1 : MessageOutput_valid (Sample.deferring Sample.generated))
    by (apply SampleTreeOk.deferring_valid; cbn; lia).
  assert (H2 : MessageOutput_valid (Sample.deferring Sample.generated_no_body))
    by (apply SampleTreeOk.deferring_valid; cbn; lia).
  split; [exact H1|]. split; [exact H2|].
  apply MessageOutput_same_encoding_iff; assumption.
Defined.
